(** * The terminal snake game of [src/snake/main.py]

    A shallow embedding of the game logic: the geometry ([Point2D],
    [Direction]), the snake state machine ([move], [grow], [update],
    [is_dead]), apple placement ([new_apple_location]), the renderer
    ([plot]) and the loop of [main] ([loop_body], [game_loop]), run on the
    keys and random draws it is given.

    Python integers are [Z]; Python lists are [list]; the dictionary
    [char_to_direction] is a [gmap]; the set [occupied] is a [gset].
    Methods that mutate [self] return the new snake.  A raised exception is
    the [Raise] case of [result]; terminal effects ([print], [clear]) are
    collected as a list of [event]s. *)

From Stdlib Require Import ZArith Ascii String.
From stdpp Require Import base list list_monad gmap strings.

Local Open Scope string_scope.
Local Open Scope Z_scope.

(** ** Exceptions and the error monad *)

Inductive exn : Type :=
  | ZeroDivisionError
  | IndexError
  | SystemExit (status : Z).

Inductive result (A : Type) : Type :=
  | Ok (a : A)
  | Raise (e : exn).
Arguments Ok {A} a.
Arguments Raise {A} e.

#[global] Instance result_ret : MRet result := @Ok.
#[global] Instance result_bind : MBind result := λ A B f m,
  match m with
  | Ok a => f a
  | Raise e => Raise e
  end.

(** What a call writes to the terminal. *)
Inductive event : Type :=
  | Clear
  | Print (line : string).

(** ** Python primitives used by the program *)

(** [a % b] on integers: floored remainder, [ZeroDivisionError] on [b = 0]. *)
Definition py_mod (a b : Z) : result Z :=
  if b =? 0 then Raise ZeroDivisionError else Ok (a mod b).

(** [range(n)]: empty when [n <= 0]. *)
Definition range (n : Z) : list Z := seqZ 0 n.

(** Normalisation of a subscript: [-len <= i < 0] counts from the end,
    anything outside [-len, len) is an [IndexError]. *)
Definition py_index (len : nat) (i : Z) : result nat :=
  if (0 <=? i) && (i <? Z.of_nat len) then Ok (Z.to_nat i)
  else if (- Z.of_nat len <=? i) && (i <? 0) then Ok (Z.to_nat (Z.of_nat len + i))
  else Raise IndexError.

(** [l[i]] *)
Definition py_getitem {A} (l : list A) (i : Z) : result A :=
  n ← py_index (length l) i;
  match l !! n with
  | Some a => Ok a
  | None => Raise IndexError
  end.

(** [l[i] = v] *)
Definition py_setitem {A} (l : list A) (i : Z) (v : A) : result (list A) :=
  n ← py_index (length l) i;
  Ok (<[n := v]> l).

(** [l.pop()]: the list without its last element, and that element. *)
Definition pop {A} (l : list A) : result (list A * A) :=
  match last l with
  | Some a => Ok (removelast l, a)
  | None => Raise IndexError
  end.

(** [s * n] on strings; the empty string when [n <= 0]. *)
Definition str_mul (s : string) (n : Z) : string :=
  String.concat "" (replicate (Z.to_nat n) s).

(** [sep.join(l)] *)
Definition join (sep : string) (l : list string) : string :=
  String.concat sep l.

(** Characters are code points below 256.  [str.isspace] on that range. *)
Definition isspace (c : ascii) : bool :=
  let n := nat_of_ascii c in
  ((9 <=? n) && (n <=? 13) || (28 <=? n) && (n <=? 32)
   || (n =? 133) || (n =? 160))%nat.

(** [str.lower] on one character of that range: A-Z and the Latin-1
    capitals (192-214, 216-222) move up by 32. *)
Definition lower_char (c : ascii) : ascii :=
  let n := nat_of_ascii c in
  if ((65 <=? n) && (n <=? 90) || (192 <=? n) && (n <=? 214)
      || (216 <=? n) && (n <=? 222))%nat
  then ascii_of_nat (n + 32) else c.

Fixpoint lower (s : string) : string :=
  match s with
  | EmptyString => EmptyString
  | String c s' => String (lower_char c) (lower s')
  end.

Fixpoint lstrip (s : string) : string :=
  match s with
  | EmptyString => EmptyString
  | String c s' => if isspace c then lstrip s' else s
  end.

Fixpoint rstrip (s : string) : string :=
  match s with
  | EmptyString => EmptyString
  | String c s' =>
      match rstrip s' with
      | EmptyString => if isspace c then EmptyString else String c EmptyString
      | r => String c r
      end
  end.

(** [s.strip()] *)
Definition strip (s : string) : string := rstrip (lstrip s).

(** ** ANSI colours *)

Definition ESC : string := String "027" EmptyString.
Definition RESET : string := ESC +:+ "[0m".
Definition GREEN : string := ESC +:+ "[32m".
Definition RED : string := ESC +:+ "[31m".
Definition BLUE : string := ESC +:+ "[34m".

(** ** Geometry *)

Record Point2D : Type := mkPoint2D { x : Z; y : Z }.

#[global] Instance Point2D_eq_dec : EqDecision Point2D.
Proof. solve_decision. Defined.

#[global] Instance Point2D_countable : Countable Point2D :=
  inj_countable' (λ p, (x p, y p)) (λ c, mkPoint2D c.1 c.2)
    (λ p, match p with mkPoint2D _ _ => eq_refl end).

(** [__add__] *)
Definition Point2D_add (self other : Point2D) : Point2D :=
  mkPoint2D (x self + x other) (y self + y other).

(** [__eq__] *)
Definition Point2D_eq (self other : Point2D) : bool :=
  (x self =? x other) && (y self =? y other).

(** [__neg__] *)
Definition Point2D_neg (self : Point2D) : Point2D :=
  mkPoint2D (- x self) (- y self).

Definition squash (self : Point2D) (x_bounds y_bounds : Z) : result Point2D :=
  a ← py_mod (x self) x_bounds;
  b ← py_mod (y self) y_bounds;
  mret (mkPoint2D a b).

Inductive Direction : Type := UP | DOWN | RIGHT | LEFT.

#[global] Instance Direction_eq_dec : EqDecision Direction.
Proof. solve_decision. Defined.

(** The vector an enum member carries ([Direction.X.value]). *)
Definition value (d : Direction) : Point2D :=
  match d with
  | UP => mkPoint2D 0 (-1)
  | DOWN => mkPoint2D 0 1
  | RIGHT => mkPoint2D 1 0
  | LEFT => mkPoint2D (-1) 0
  end.

(** ** The snake *)

Record Snake : Type := mkSnake {
  coords : list Point2D;
  direction : Direction
}.

(** The key table every snake is built with; it is never reassigned. *)
Definition char_to_direction : gmap string Direction :=
  <["w" := UP]> (<["a" := LEFT]> (<["s" := DOWN]> (<["d" := RIGHT]> ∅))).

(** [Snake.__init__] *)
Definition Snake_init (x_coord y_coord : Z) (d : Direction) : Snake :=
  mkSnake [mkPoint2D x_coord y_coord] d.

Definition show (self : Snake) : list Point2D := coords self.

(** [x in l] on a list of points: some element is [==] to [x]. *)
Definition py_in (p : Point2D) (l : list Point2D) : bool :=
  existsb (Point2D_eq p) l.

(** [move]: the snake afterwards and the returned flag. *)
Definition move (self : Snake) (key : string) : Snake * bool :=
  let character := lower (strip key) in
  let self1 :=
    match char_to_direction !! character with
    | Some d =>
        if negb (Point2D_eq (value (direction self)) (Point2D_neg (value d)))
        then mkSnake (coords self) d
        else self
    | None => self
    end in
  if String.eqb character "q" then (self1, false) else (self1, true).

Definition grow (self : Snake) : result Snake :=
  h ← py_getitem (coords self) 0;
  mret (mkSnake ([Point2D_add h (value (direction self))] ++ coords self)
                (direction self)).

Definition update (self : Snake) (x_bounds y_bounds : Z) : result Snake :=
  cs ← mapM (λ coord, squash coord x_bounds y_bounds) (coords self);
  self1 ← grow (mkSnake cs (direction self));
  r ← pop (coords self1);
  mret (mkSnake r.1 (direction self1)).

Definition is_dead (self : Snake) : result bool :=
  h ← py_getitem (coords self) 0;
  mret (py_in h (drop 1 (coords self))).

(** ** Apple placement *)

(** [random.choice(seq)]: the element at index [randbelow (len seq)], where
    [randbelow] stands for the generator's draw below a bound. *)
Definition choice {A} (randbelow : nat → nat) (seq : list A) : result A :=
  match seq with
  | [] => Raise IndexError
  | _ => py_getitem seq (Z.of_nat (randbelow (length seq)))
  end.

(** The list [free] of [new_apple_location]: every cell of the rectangle,
    column by column, that is not in [occupied]. *)
Definition free_cells (x_bounds y_bounds : Z) (occupied : gset Point2D)
  : list Point2D :=
  a ← range x_bounds;
  b ← range y_bounds;
  if decide (mkPoint2D a b ∈ occupied) then [] else [mkPoint2D a b].

(** [set(snake.coords)] *)
Definition occupied (snake : Snake) : gset Point2D :=
  list_to_set (coords snake).

Definition new_apple_location (randbelow : nat → nat)
    (x_bounds y_bounds : Z) (snake : Snake) : list event * result Point2D :=
  let free := free_cells x_bounds y_bounds (occupied snake) in
  match free with
  | [] => ([Print "You won! No more space left."], Raise (SystemExit 0))
  | _ => ([], choice randbelow free)
  end.

(** ** Renderer *)

(** [board[i][j] = v] *)
Definition board_set (board : list (list string)) (i j : Z) (v : string)
  : result (list (list string)) :=
  row ← py_getitem board i;
  row' ← py_setitem row j v;
  py_setitem board i row'.

(** One round of the loop over [snake.coords] in [plot]. *)
Definition plot_point (x_bounds y_bounds : Z) (board : list (list string))
    (point : Point2D) : result (list (list string)) :=
  if (0 <=? x point) && (x point <? x_bounds)
     && ((0 <=? y point) && (y point <? y_bounds))
  then board_set board (y point) (x point) (GREEN +:+ "S" +:+ RESET)
  else Ok board.

Fixpoint plot_points (x_bounds y_bounds : Z) (board : list (list string))
    (points : list Point2D) : result (list (list string)) :=
  match points with
  | [] => Ok board
  | point :: rest =>
      board' ← plot_point x_bounds y_bounds board point;
      plot_points x_bounds y_bounds board' rest
  end.

Definition horizontal_border (x_bounds : Z) : string :=
  BLUE +:+ "+" +:+ str_mul (str_mul "-" x_bounds) 2 +:+ "+" +:+ RESET.

Definition render_row (row : list string) : string :=
  (BLUE +:+ "|" +:+ RESET) +:+ join " " row +:+ (" " +:+ BLUE +:+ "|" +:+ RESET).

Definition plot (x_bounds y_bounds : Z) (snake : Snake) (apple : Point2D)
  : list event * result (list string) :=
  ([Clear],
   let board := (λ _, (λ _, " ") <$> range x_bounds) <$> range y_bounds in
   board ← board_set board (y apple) (x apple) (RED +:+ "A" +:+ RESET);
   board ← plot_points x_bounds y_bounds board (coords snake);
   mret ([horizontal_border x_bounds] ++ (render_row <$> board)
         ++ [horizontal_border x_bounds])%list).

(** ** The main loop *)

(** What the loop writes or does besides changing its variables: the
    terminal events of the calls it makes, the bell ([print] of the alert
    character without a newline) and the [time.sleep] between ticks. *)
Inductive output : Type :=
  | Term (e : event)
  | Bell
  | Sleep.

(** A computation that writes some output and returns or raises. *)
Definition io (A : Type) : Type := (list output * result A)%type.

#[global] Instance io_ret : MRet io := λ A a, ([], Ok a).
#[global] Instance io_bind : MBind io := λ A B f m,
  match m.2 with
  | Ok a => ((m.1 ++ (f a).1)%list, (f a).2)
  | Raise e => (m.1, Raise e)
  end.

Definition emit (o : output) : io unit := ([o], Ok tt).
Definition lift {A} (r : result A) : io A := ([], r).
Definition term {A} (c : list event * result A) : io A := (Term <$> c.1, c.2).

(** The local variables of [main] that the loop reads and writes. *)
Record Game : Type := mkGame {
  snake : Snake;
  apple : Point2D;
  is_running : bool;
  score : Z
}.

(** How one pass through the loop body ends: at its last statement, or at
    the [break]. *)
Inductive flow : Type :=
  | Continue (g : Game)
  | Break (g : Game).

(** The truth value of [key] in [if key:]: a character was read. *)
Definition truthy (key : option string) : bool :=
  match key with
  | Some (String _ _) => true
  | _ => false
  end.

(** The eating step of the loop body: when the head is on the apple the
    score goes up, the bell rings, the snake grows and a new apple is
    placed. *)
Definition eat (X_BOUNDS Y_BOUNDS : Z) (randbelow : nat → nat) (g : Game)
  : io Game :=
  h ← lift (py_getitem (coords (snake g)) 0);
  if Point2D_eq h (apple g) then
    _ ← emit Bell;
    s ← lift (grow (snake g));
    a ← term (new_apple_location randbelow X_BOUNDS Y_BOUNDS s);
    mret (mkGame s a (is_running g) (score g + 1))
  else mret g.

(** The key step of the loop body: a key that was read is given to [move],
    whose flag becomes [is_running]. *)
Definition read_key (key : option string) (g : Game) : Game :=
  match key with
  | Some k =>
      if truthy key
      then mkGame (move (snake g) k).1 (apple g) (move (snake g) k).2 (score g)
      else g
  | None => g
  end.

(** One pass through the body of [while is_running]; [key] is what
    [listener.get_key()] returns in this pass and [randbelow] the draw of
    the random generator. *)
Definition loop_body (X_BOUNDS Y_BOUNDS : Z) (randbelow : nat → nat)
    (key : option string) (g : Game) : io flow :=
  lines ← term (plot X_BOUNDS Y_BOUNDS (snake g) (apple g));
  _ ← emit (Term (Print (join (String "010" "") lines)));
  dead ← lift (is_dead (snake g));
  if dead : bool then mret (Break g) else
  g1 ← eat X_BOUNDS Y_BOUNDS randbelow g;
  let g2 := read_key key g1 in
  s ← lift (update (snake g2) X_BOUNDS Y_BOUNDS);
  _ ← emit Sleep;
  mret (Continue (mkGame s (apple g2) (is_running g2) (score g2))).

(** The loop [while is_running], run on the keys and draws of as many
    passes as [inputs] has: [Some g] when the loop has ended with variables
    [g], [None] when the inputs ran out first. *)
Fixpoint game_loop (X_BOUNDS Y_BOUNDS : Z)
    (inputs : list (option string * (nat → nat))) (g : Game)
  : io (option Game) :=
  if is_running g then
    match inputs with
    | [] => mret None
    | (key, randbelow) :: rest =>
        f ← loop_body X_BOUNDS Y_BOUNDS randbelow key g;
        match f with
        | Break g' => mret (Some g')
        | Continue g' => game_loop X_BOUNDS Y_BOUNDS rest g'
        end
    end
  else mret (Some g).

(** The statements of [main] before the loop. *)
Definition main_init (randbelow : nat → nat) : io Game :=
  let X_BOUNDS := 30 in
  let Y_BOUNDS := 20 in
  let snake := Snake_init (X_BOUNDS `div` 2) (Y_BOUNDS `div` 2) DOWN in
  apple ← term (new_apple_location randbelow X_BOUNDS Y_BOUNDS snake);
  mret (mkGame snake apple true 0).

(** [main] up to the end of its loop. *)
Definition main_loop (randbelow : nat → nat)
    (inputs : list (option string * (nat → nat))) : io (option Game) :=
  g ← main_init randbelow;
  game_loop 30 20 inputs g.

(** ** Predicates used in the statements *)

(** The point [squash] returns when both bounds are non-zero. *)
Definition wrapped (x_bounds y_bounds : Z) (p : Point2D) : Point2D :=
  mkPoint2D (x p mod x_bounds) (y p mod y_bounds).

Definition in_bounds (x_bounds y_bounds : Z) (p : Point2D) : Prop :=
  0 ≤ x p < x_bounds ∧ 0 ≤ y p < y_bounds.

(** The head the sentence "advanced one step and wrapped" describes:
    [squash] applied to the old head plus the direction vector. *)
Definition head_advanced_then_wrapped (x_bounds y_bounds : Z)
    (old new : Snake) : Prop :=
  ∃ h h', head (coords old) = Some h ∧ head (coords new) = Some h'
          ∧ squash (Point2D_add h (value (direction old))) x_bounds y_bounds
            = Ok h'.

(** A unit step: one coordinate is 0, the other 1 or -1. *)
Definition unit_vector (v : Point2D) : Prop :=
  (x v = 0 ∧ (y v = 1 ∨ y v = -1)) ∨ (y v = 0 ∧ (x v = 1 ∨ x v = -1)).

(** The snake after a request for direction [d]: the body is kept, the
    direction becomes [d] unless [d] is the reverse of the current one. *)
Definition requested (s : Snake) (d : Direction) : Snake :=
  mkSnake (coords s)
    (if decide (value d = Point2D_neg (value (direction s)))
     then direction s else d).

(** Every character of [s] is whitespace. *)
Fixpoint all_space (s : string) : bool :=
  match s with
  | EmptyString => true
  | String c s' => isspace c && all_space s'
  end.

(** The three strings a cell of the board can hold. *)
Definition is_cell (c : string) : Prop :=
  c = " " ∨ c = RED +:+ "A" +:+ RESET ∨ c = GREEN +:+ "S" +:+ RESET.

(** A board of [h] rows of [w] cells. *)
Definition board_ok (w h : nat) (board : list (list string)) : Prop :=
  length board = h ∧ Forall (λ row, length row = w ∧ Forall is_cell row) board.

(** [update] called [n] times in a row. *)
Fixpoint update_n (n : nat) (self : Snake) (x_bounds y_bounds : Z)
  : result Snake :=
  match n with
  | O => Ok self
  | S k => s ← update self x_bounds y_bounds; update_n k s x_bounds y_bounds
  end.

(** The direction with the negated vector. *)
Definition opposite (d : Direction) : Direction :=
  match d with
  | UP => DOWN
  | DOWN => UP
  | RIGHT => LEFT
  | LEFT => RIGHT
  end.

(** A draw that stays below its bound, as [random] guarantees. *)
Definition good_draw (randbelow : nat → nat) : Prop :=
  ∀ n, (0 < n)%nat → (randbelow n < n)%nat.

(** What the loop keeps true of its variables: the snake has a body and the
    apple is a cell of the board. *)
Definition game_ok (X_BOUNDS Y_BOUNDS : Z) (g : Game) : Prop :=
  coords (snake g) ≠ [] ∧ in_bounds X_BOUNDS Y_BOUNDS (apple g).

(** Every cell of the rectangle, in the order [new_apple_location] visits
    them. *)
Definition grid (x_bounds y_bounds : Z) : list Point2D :=
  a ← range x_bounds; b ← range y_bounds; [mkPoint2D a b].

(** The string in row [i], column [j] of a board. *)
Definition cell_at (board : list (list string)) (i j : nat) : option string :=
  row ← board !! i; row !! j.

#[global] Instance in_bounds_dec x_bounds y_bounds p :
  Decision (in_bounds x_bounds y_bounds p).
Proof. unfold in_bounds. apply _. Defined.

(** The whitespace characters among the code points below 256, by code:
    tab, line feed, vertical tab, form feed, carriage return, the four
    separators 28-31, space, next line (133) and no-break space (160). *)
Definition whitespace_chars : list ascii :=
  ["009"; "010"; "011"; "012"; "013"; "028"; "029"; "030"; "031"; " ";
   "133"; "160"]%char.

(** Every character of [s] is one of [whitespace_chars]. *)
Fixpoint blank (s : string) : Prop :=
  match s with
  | EmptyString => True
  | String c s' => c ∈ whitespace_chars ∧ blank s'
  end.

Definition starts_blank (m : string) : Prop :=
  ∃ c m', m = String c m' ∧ c ∈ whitespace_chars.

Definition ends_blank (m : string) : Prop :=
  ∃ m' c, m = m' +:+ String c "" ∧ c ∈ whitespace_chars.

(** [m] is [key] without its leading and trailing whitespace. *)
Definition trimmed_of (key m : string) : Prop :=
  ∃ l r, key = l +:+ m +:+ r ∧ blank l ∧ blank r
         ∧ ¬ starts_blank m ∧ ¬ ends_blank m.

(** [n] dashes. *)
Fixpoint dashes (n : nat) : string :=
  match n with
  | O => ""
  | S k => String "-" (dashes k)
  end.

(** The texts of a frame written out, the colour codes being the escape
    character (code 27) followed by [[34m] (blue), [[31m] (red), [[32m]
    (green) and [[0m] (reset): the border over [n] columns, the vertical bar
    at both ends of a row, and the three cells. *)
Definition border_text (n : nat) : string :=
  String "027" "[34m+" +:+ dashes (2 * n) +:+ "+" +:+ String "027" "[0m".

Definition bar_text : string := String "027" "[34m|" +:+ String "027" "[0m".

Definition cell_text (c : string) : Prop :=
  c = " "
  ∨ c = String "027" "[31mA" +:+ String "027" "[0m"
  ∨ c = String "027" "[32mS" +:+ String "027" "[0m".

(** ** Sanity checks on concrete inputs *)

Example squash_wraps : squash (mkPoint2D (-1) 20) 30 20 = Ok (mkPoint2D 29 0).
Proof. reflexivity. Qed.

Example move_w : move (mkSnake [mkPoint2D 5 5] RIGHT) " W " = (mkSnake [mkPoint2D 5 5] UP, true).
Proof. vm_compute. reflexivity. Qed.

Example update_down :
  update (Snake_init 15 10 DOWN) 30 20 = Ok (mkSnake [mkPoint2D 15 11] DOWN).
Proof. reflexivity. Qed.

Example apple_2x2 :
  new_apple_location (λ _, 0%nat) 2 2 (mkSnake [mkPoint2D 0 0] UP)
  = ([], Ok (mkPoint2D 0 1)).
Proof. vm_compute. reflexivity. Qed.

Example plot_2x1 :
  plot 2 1 (mkSnake [mkPoint2D 0 0] UP) (mkPoint2D 1 0)
  = ([Clear], Ok [BLUE +:+ "+----+" +:+ RESET;
                  BLUE +:+ "|" +:+ RESET +:+ GREEN +:+ "S" +:+ RESET +:+ " "
                    +:+ RED +:+ "A" +:+ RESET +:+ " " +:+ BLUE +:+ "|" +:+ RESET;
                  BLUE +:+ "+----+" +:+ RESET]).
Proof. vm_compute. reflexivity. Qed.

(** ** Properties of [squash] *)

Lemma squash_ok p x_bounds y_bounds :
  x_bounds ≠ 0 → y_bounds ≠ 0 →
  squash p x_bounds y_bounds = Ok (wrapped x_bounds y_bounds p).
Proof.
  intros Hx Hy. unfold squash, py_mod.
  destruct (Z.eqb_spec x_bounds 0) as [|_]; [done|].
  destruct (Z.eqb_spec y_bounds 0) as [|_]; [done|].
  reflexivity.
Qed.

Lemma wrapped_in_bounds p x_bounds y_bounds :
  0 < x_bounds → 0 < y_bounds →
  in_bounds x_bounds y_bounds (wrapped x_bounds y_bounds p).
Proof.
  intros Hx Hy. unfold in_bounds, wrapped; simpl.
  split; apply Z.mod_pos_bound; assumption.
Qed.

(** C2: for positive bounds [squash] returns a point inside the rectangle
    whose components are congruent to the argument's, modulo the bounds. *)
Theorem squash_in_bounds_congruent (p : Point2D) (x_bounds y_bounds : Z) :
  0 < x_bounds → 0 < y_bounds →
  ∃ r, squash p x_bounds y_bounds = Ok r
       ∧ (0 ≤ x r < x_bounds ∧ 0 ≤ y r < y_bounds)
       ∧ x r mod x_bounds = x p mod x_bounds
       ∧ y r mod y_bounds = y p mod y_bounds
       ∧ (x_bounds | x p - x r) ∧ (y_bounds | y p - y r).
Proof.
  intros Hx Hy. exists (wrapped x_bounds y_bounds p).
  split; [apply squash_ok; lia|].
  split; [apply wrapped_in_bounds; assumption|].
  simpl. repeat split.
  - apply Z.mod_mod; lia.
  - apply Z.mod_mod; lia.
  - exists (x p `div` x_bounds).
    pose proof (Z.div_mod (x p) x_bounds). lia.
  - exists (y p `div` y_bounds).
    pose proof (Z.div_mod (y p) y_bounds). lia.
Qed.

Lemma squash_in_bounds_congruent_witness :
  ∃ r, squash (mkPoint2D (-1) 20) 30 20 = Ok r
       ∧ (0 ≤ x r < 30 ∧ 0 ≤ y r < 20)
       ∧ x r mod 30 = (-1) mod 30
       ∧ y r mod 20 = 20 mod 20
       ∧ (30 | -1 - x r) ∧ (20 | 20 - y r).
Proof. apply (squash_in_bounds_congruent (mkPoint2D (-1) 20) 30 20); lia. Defined.

(** ** Properties of [grow] and [update] *)

Lemma mapM_squash_ok x_bounds y_bounds (l : list Point2D) :
  x_bounds ≠ 0 → y_bounds ≠ 0 →
  mapM (λ coord, squash coord x_bounds y_bounds) l
  = Ok (wrapped x_bounds y_bounds <$> l).
Proof.
  intros Hx Hy. induction l as [|c l IH]; [reflexivity|].
  simpl. rewrite squash_ok by assumption. simpl.
  rewrite IH. reflexivity.
Qed.

Lemma grow_cons h t d :
  grow (mkSnake (h :: t) d) = Ok (mkSnake (Point2D_add h (value d) :: h :: t) d).
Proof. reflexivity. Qed.

Lemma grow_nil d : grow (mkSnake [] d) = Raise IndexError.
Proof. reflexivity. Qed.

Lemma pop_cons {A} (a : A) (l : list A) :
  pop (a :: l) = Ok (removelast (a :: l), default a (last l)).
Proof. unfold pop. rewrite last_cons. destruct (last l); reflexivity. Qed.

(** What [update] computes on a body [h :: t] when no bound is zero. *)
Lemma update_cons h t d x_bounds y_bounds :
  x_bounds ≠ 0 → y_bounds ≠ 0 →
  update (mkSnake (h :: t) d) x_bounds y_bounds
  = Ok (mkSnake
          (Point2D_add (wrapped x_bounds y_bounds h) (value d)
           :: removelast (wrapped x_bounds y_bounds <$> h :: t)) d).
Proof.
  intros Hx Hy. unfold update. cbn [coords direction].
  rewrite mapM_squash_ok by assumption. cbn [mbind result_bind fmap list_fmap].
  rewrite grow_cons. cbn [mbind result_bind coords direction].
  rewrite pop_cons. reflexivity.
Qed.

Lemma update_nil d x_bounds y_bounds :
  update (mkSnake [] d) x_bounds y_bounds = Raise IndexError.
Proof. reflexivity. Qed.

Lemma removelast_length {A} (l : list A) :
  length (removelast l) = Nat.pred (length l).
Proof.
  induction l as [|a [|b l] IH]; [reflexivity..|].
  change (removelast (a :: b :: l)) with (a :: removelast (b :: l)).
  cbn [length] in *. rewrite IH. reflexivity.
Qed.

Lemma elem_of_removelast {A} (a : A) (l : list A) :
  a ∈ removelast l → a ∈ l.
Proof.
  induction l as [|b [|c l] IH]; cbn; intros Ha.
  - inversion Ha.
  - inversion Ha.
  - apply elem_of_cons in Ha as [->|Ha]; [left|right; apply IH, Ha].
Qed.

(** C1, as the code has it: [update] wraps the old body, then puts the
    wrapped old head advanced by the direction vector in front (this new
    head is not wrapped again) and drops the old tail. *)
Theorem update_moves_one_cell (s : Snake) (x_bounds y_bounds : Z) :
  coords s ≠ [] → 0 < x_bounds → 0 < y_bounds →
  ∃ h t s', coords s = h :: t
    ∧ update s x_bounds y_bounds = Ok s'
    ∧ direction s' = direction s
    ∧ head (coords s')
      = Some (Point2D_add (wrapped x_bounds y_bounds h) (value (direction s)))
    ∧ tail (coords s')
      = removelast (wrapped x_bounds y_bounds <$> coords s).
Proof.
  intros Hne Hx Hy. destruct s as [[|h t] d]; [done|].
  eexists h, t, _. split; [reflexivity|].
  split; [apply update_cons; lia|].
  cbn [coords direction head tail]. repeat split.
Qed.

Lemma update_moves_one_cell_witness :
  ∃ h t s', coords (mkSnake [mkPoint2D 0 0; mkPoint2D 0 1] UP) = h :: t
    ∧ update (mkSnake [mkPoint2D 0 0; mkPoint2D 0 1] UP) 30 20 = Ok s'
    ∧ direction s' = UP
    ∧ head (coords s') = Some (Point2D_add (wrapped 30 20 h) (value UP))
    ∧ tail (coords s')
      = removelast (wrapped 30 20 <$> [mkPoint2D 0 0; mkPoint2D 0 1]).
Proof.
  apply (update_moves_one_cell (mkSnake [mkPoint2D 0 0; mkPoint2D 0 1] UP) 30 20);
    [discriminate | lia | lia].
Defined.

(** C1, as the sentence has it, fails at the top edge: going up from
    (0, 0) on a 30 x 20 board the new head is (0, -1), not (0, 19). *)
Lemma update_head_not_wrapped :
  update (Snake_init 0 0 UP) 30 20 = Ok (mkSnake [mkPoint2D 0 (-1)] UP)
  ∧ ¬ head_advanced_then_wrapped 30 20
        (Snake_init 0 0 UP) (mkSnake [mkPoint2D 0 (-1)] UP).
Proof.
  split; [reflexivity|].
  intros (h & h' & Hh & Hh' & Hsq).
  cbn in Hh, Hh'. injection Hh as <-. injection Hh' as <-.
  vm_compute in Hsq. discriminate.
Qed.

(** C4: on a non-empty body, [update] keeps the length of the body, and
    [grow] followed by [update] (the eating tick: two grows, one pop) makes
    it one longer. *)
Theorem update_length_balance (s : Snake) (x_bounds y_bounds : Z) :
  coords s ≠ [] → x_bounds ≠ 0 → y_bounds ≠ 0 →
  (∃ s', update s x_bounds y_bounds = Ok s'
         ∧ length (coords s') = length (coords s))
  ∧ (∃ s1 s2, grow s = Ok s1 ∧ update s1 x_bounds y_bounds = Ok s2
              ∧ length (coords s1) = S (length (coords s))
              ∧ length (coords s2) = S (length (coords s))).
Proof.
  intros Hne Hx Hy. destruct s as [[|h t] d]; [done|]. split.
  - eexists. split; [apply update_cons; assumption|].
    cbn [coords length]. rewrite removelast_length, length_fmap. reflexivity.
  - eexists _, _. split; [apply grow_cons|].
    split; [apply update_cons; assumption|].
    cbn [coords length]. split; [reflexivity|].
    rewrite removelast_length, length_fmap. reflexivity.
Qed.

Lemma update_length_balance_witness :
  (∃ s', update (Snake_init 15 10 DOWN) 30 20 = Ok s'
         ∧ length (coords s') = length (coords (Snake_init 15 10 DOWN)))
  ∧ (∃ s1 s2, grow (Snake_init 15 10 DOWN) = Ok s1
              ∧ update s1 30 20 = Ok s2
              ∧ length (coords s1) = S (length (coords (Snake_init 15 10 DOWN)))
              ∧ length (coords s2) = S (length (coords (Snake_init 15 10 DOWN)))).
Proof.
  apply (update_length_balance (Snake_init 15 10 DOWN) 30 20);
    [discriminate | lia | lia].
Defined.

Lemma value_unit_vector d : unit_vector (value d).
Proof. destruct d; unfold unit_vector; simpl; lia. Qed.

(** C9: after [update] every segment behind the head is inside the
    rectangle, and the head is an in-bounds point plus a unit direction
    vector, so it is at most one cell outside, in one coordinate only. *)
Theorem update_body_in_bounds (s : Snake) (x_bounds y_bounds : Z) :
  coords s ≠ [] → 0 < x_bounds → 0 < y_bounds →
  ∃ h' t', update s x_bounds y_bounds = Ok (mkSnake (h' :: t') (direction s))
    ∧ Forall (in_bounds x_bounds y_bounds) t'
    ∧ (∃ p, in_bounds x_bounds y_bounds p
            ∧ unit_vector (value (direction s))
            ∧ h' = Point2D_add p (value (direction s)))
    ∧ ((-1 ≤ x h' ≤ x_bounds ∧ 0 ≤ y h' < y_bounds)
       ∨ (0 ≤ x h' < x_bounds ∧ -1 ≤ y h' ≤ y_bounds)).
Proof.
  intros Hne Hx Hy. destruct s as [[|h t] d]; [done|].
  eexists _, _. split; [apply update_cons; lia|].
  pose proof (wrapped_in_bounds h x_bounds y_bounds Hx Hy) as Hh.
  split; [|split].
  - apply Forall_forall. intros p Hp.
    apply elem_of_removelast, list_elem_of_fmap in Hp as (q & -> & _).
    apply wrapped_in_bounds; assumption.
  - exists (wrapped x_bounds y_bounds h).
    split; [assumption|]. split; [apply value_unit_vector | reflexivity].
  - cbn [direction]. unfold in_bounds in Hh.
    destruct d; cbn [Point2D_add value x y]; lia.
Qed.

Lemma update_body_in_bounds_witness :
  ∃ h' t',
    update (mkSnake [mkPoint2D 0 0; mkPoint2D 0 1] UP) 30 20
    = Ok (mkSnake (h' :: t') UP)
    ∧ Forall (in_bounds 30 20) t'
    ∧ (∃ p, in_bounds 30 20 p ∧ unit_vector (value UP)
            ∧ h' = Point2D_add p (value UP))
    ∧ ((-1 ≤ x h' ≤ 30 ∧ 0 ≤ y h' < 20) ∨ (0 ≤ x h' < 30 ∧ -1 ≤ y h' ≤ 20)).
Proof.
  apply (update_body_in_bounds (mkSnake [mkPoint2D 0 0; mkPoint2D 0 1] UP) 30 20);
    [discriminate | lia | lia].
Defined.

(** The head does leave the rectangle: here by one cell, above the top. *)
Example update_head_out_of_bounds :
  update (mkSnake [mkPoint2D 0 0; mkPoint2D 0 1] UP) 30 20
  = Ok (mkSnake [mkPoint2D 0 (-1); mkPoint2D 0 0] UP).
Proof. reflexivity. Qed.

(** ** Properties of [move] *)

Lemma Point2D_eq_true p q : Point2D_eq p q = true ↔ p = q.
Proof.
  destruct p as [a b], q as [c d]. unfold Point2D_eq; simpl.
  rewrite andb_true_iff, !Z.eqb_eq. split.
  - intros [-> ->]. reflexivity.
  - intros [= -> ->]. done.
Qed.

Lemma Point2D_neg_involutive p : Point2D_neg (Point2D_neg p) = p.
Proof. destruct p as [a b]. unfold Point2D_neg; simpl. f_equal; lia. Qed.

(** The reversal test of [move], read on vectors. *)
Lemma reversal_test d d' :
  Point2D_eq (value d) (Point2D_neg (value d')) = true
  ↔ value d' = Point2D_neg (value d).
Proof.
  rewrite Point2D_eq_true. split; intros H.
  - rewrite H, Point2D_neg_involutive. reflexivity.
  - rewrite H, Point2D_neg_involutive. reflexivity.
Qed.

(** [move] when the normalised key is in the table. *)
Lemma move_mapped s key d :
  char_to_direction !! lower (strip key) = Some d →
  (move s key).1
  = if Point2D_eq (value (direction s)) (Point2D_neg (value d))
    then s else mkSnake (coords s) d.
Proof.
  intros Hd. unfold move. rewrite Hd.
  destruct (Point2D_eq _ _); simpl;
    destruct (String.eqb _ _); reflexivity.
Qed.

(** [move] when the normalised key is not in the table. *)
Lemma move_unmapped s key :
  char_to_direction !! lower (strip key) = None →
  move s key = (s, negb (String.eqb (lower (strip key)) "q")).
Proof.
  intros Hd. unfold move. rewrite Hd.
  destruct (String.eqb _ _); reflexivity.
Qed.

Lemma char_to_direction_None (c : string) :
  c ≠ "w" → c ≠ "a" → c ≠ "s" → c ≠ "d" → char_to_direction !! c = None.
Proof.
  intros Hw Ha Hs Hd. unfold char_to_direction.
  rewrite !lookup_insert_ne by congruence. apply lookup_empty.
Qed.

(** C3: a key mapped to the direction whose vector is the negation of the
    current one leaves the direction as it is; a key mapped to any other
    direction sets the direction to it. *)
Theorem move_rejects_reversal (s : Snake) (key : string) (d : Direction) :
  char_to_direction !! lower (strip key) = Some d →
  (value d = Point2D_neg (value (direction s)) →
     direction (move s key).1 = direction s)
  ∧ (value d ≠ Point2D_neg (value (direction s)) →
     direction (move s key).1 = d).
Proof.
  intros Hd. rewrite (move_mapped s key d Hd).
  destruct (Point2D_eq _ _) eqn:E.
  - apply reversal_test in E. split; [reflexivity | contradiction].
  - split; [|reflexivity]. intros Hrev.
    apply reversal_test in Hrev. congruence.
Qed.

Lemma move_rejects_reversal_witness :
  direction (move (mkSnake [mkPoint2D 5 5; mkPoint2D 5 4; mkPoint2D 5 3] DOWN)
                  "w").1 = DOWN
  ∧ direction (move (mkSnake [mkPoint2D 5 5; mkPoint2D 5 4; mkPoint2D 5 3] DOWN)
                    "a").1 = LEFT.
Proof.
  split.
  - apply (move_rejects_reversal
             (mkSnake [mkPoint2D 5 5; mkPoint2D 5 4; mkPoint2D 5 3] DOWN) "w" UP);
      vm_compute; reflexivity.
  - apply (move_rejects_reversal
             (mkSnake [mkPoint2D 5 5; mkPoint2D 5 4; mkPoint2D 5 3] DOWN) "a" LEFT);
      [vm_compute; reflexivity | vm_compute; discriminate].
Defined.

Lemma move_requests s key d :
  char_to_direction !! lower (strip key) = Some d →
  (move s key).1 = requested s d.
Proof.
  intros Hd. rewrite (move_mapped s key d Hd). unfold requested.
  destruct (Point2D_eq _ _) eqn:E.
  - apply reversal_test in E. rewrite decide_True by assumption.
    destruct s; reflexivity.
  - rewrite decide_False; [reflexivity|].
    intros Hrev. apply reversal_test in Hrev. congruence.
Qed.

Lemma move_flag s key :
  (move s key).2 = negb (String.eqb (lower (strip key)) "q").
Proof. unfold move. destruct (String.eqb _ _); reflexivity. Qed.

Lemma lstrip_spaces l s : all_space l = true → lstrip (l +:+ s) = lstrip s.
Proof.
  induction l as [|c l IH]; [reflexivity|].
  simpl. intros [Hc Hl]%andb_true_iff.
  rewrite Hc. apply IH, Hl.
Qed.

Lemma rstrip_spaces r : all_space r = true → rstrip r = "".
Proof.
  induction r as [|c r IH]; [reflexivity|].
  cbn [all_space rstrip]. intros [Hc Hr]%andb_true_iff.
  rewrite (IH Hr), Hc. reflexivity.
Qed.

(** Trimming: a single non-space character surrounded by whitespace. *)
Lemma strip_padded_char l c r :
  all_space l = true → all_space r = true → isspace c = false →
  strip (l +:+ String c r) = String c "".
Proof.
  intros Hl Hr Hc. unfold strip. rewrite (lstrip_spaces l _ Hl).
  cbn [lstrip]. rewrite Hc. cbn [rstrip]. rewrite (rstrip_spaces r Hr), Hc.
  reflexivity.
Qed.

(** X8: whitespace around a one-character key and the case of the
    character do not matter to [move]. *)
Lemma move_padded_char s l c r :
  all_space l = true → all_space r = true → isspace c = false →
  move s (l +:+ String c r) = move s (String (lower_char c) "").
Proof.
  intros Hl Hr Hc. unfold move.
  rewrite (strip_padded_char l c r Hl Hr Hc).
  assert (Hlow : isspace (lower_char c) = false).
  { revert Hc. destruct c as [[] [] [] [] [] [] [] []]; vm_compute; congruence. }
  assert (Hidem : lower_char (lower_char c) = lower_char c).
  { destruct c as [[] [] [] [] [] [] [] []]; vm_compute; reflexivity. }
  assert (Hs : strip (String (lower_char c) "") = String (lower_char c) "").
  { unfold strip. cbn [lstrip]. rewrite Hlow. cbn [rstrip]. rewrite Hlow.
    reflexivity. }
  rewrite Hs. cbn [lower]. rewrite Hidem. reflexivity.
Qed.

(** [move] by cases on the normalised key. *)
Lemma move_on_normalised (s : Snake) (key : string) :
  let character := lower (strip key) in
  (character = "w" → move s key = (requested s UP, true))
  ∧ (character = "a" → move s key = (requested s LEFT, true))
  ∧ (character = "s" → move s key = (requested s DOWN, true))
  ∧ (character = "d" → move s key = (requested s RIGHT, true))
  ∧ (character = "q" → move s key = (s, false))
  ∧ (character ≠ "w" → character ≠ "a" → character ≠ "s" →
     character ≠ "d" → character ≠ "q" → move s key = (s, true)).
Proof.
  intros character.
  assert (Hmapped : ∀ c d, character = c → char_to_direction !! c = Some d →
            String.eqb c "q" = false → move s key = (requested s d, true)).
  { intros c d Hc Hd Hq. subst c.
    rewrite (surjective_pairing (move s key)).
    rewrite (move_requests s key d Hd), move_flag.
    fold character. rewrite Hq. reflexivity. }
  repeat split.
  - intros Hc. apply (Hmapped "w"); [assumption | reflexivity..].
  - intros Hc. apply (Hmapped "a"); [assumption | reflexivity..].
  - intros Hc. apply (Hmapped "s"); [assumption | reflexivity..].
  - intros Hc. apply (Hmapped "d"); [assumption | reflexivity..].
  - intros Hc. rewrite move_unmapped; fold character; rewrite Hc; reflexivity.
  - intros Hw Ha Hs Hd Hq. rewrite move_unmapped.
    + fold character. apply String.eqb_neq in Hq. rewrite Hq. reflexivity.
    + apply char_to_direction_None; assumption.
Qed.

Lemma isspace_whitespace c : isspace c = true ↔ c ∈ whitespace_chars.
Proof.
  assert (H : isspace c = bool_decide (c ∈ whitespace_chars))
    by (destruct c as [[] [] [] [] [] [] [] []]; vm_compute; reflexivity).
  rewrite H. apply bool_decide_eq_true.
Qed.

Lemma blank_all_space s : blank s ↔ all_space s = true.
Proof.
  induction s as [|c s IH]; cbn [blank all_space]; [done|].
  rewrite andb_true_iff, isspace_whitespace, IH. reflexivity.
Qed.

Lemma not_starts_blank_cons c m :
  ¬ starts_blank (String c m) → isspace c = false.
Proof.
  intros H. apply not_true_is_false. intros Hc%isspace_whitespace.
  apply H. exists c, m. auto.
Qed.

Lemma lstrip_blank r : blank r → lstrip r = "".
Proof.
  induction r as [|c r IH]; [reflexivity|]. intros [Hc Hr].
  cbn [lstrip]. apply isspace_whitespace in Hc. rewrite Hc. apply IH, Hr.
Qed.

Lemma rstrip_app_blank s r : blank r → rstrip (s +:+ r) = rstrip s.
Proof.
  intros Hr. induction s as [|c s IH].
  - apply rstrip_spaces, blank_all_space, Hr.
  - change (String c s +:+ r) with (String c (s +:+ r)).
    cbn [rstrip]. rewrite IH. reflexivity.
Qed.

Lemma rstrip_fixed m : ¬ ends_blank m → rstrip m = m.
Proof.
  induction m as [|c m IH]; [reflexivity|]. intros Hend. cbn [rstrip].
  destruct m as [|c' m'].
  - cbn [rstrip]. destruct (isspace c) eqn:Hc; [|reflexivity].
    destruct Hend. exists "", c. split; [reflexivity|].
    apply isspace_whitespace, Hc.
  - rewrite IH; [reflexivity|].
    intros (m1 & c1 & Hm & Hc1). apply Hend.
    exists (String c m1), c1. split; [|exact Hc1].
    change (String c m1 +:+ String c1 "") with (String c (m1 +:+ String c1 "")).
    rewrite <- Hm. reflexivity.
Qed.

(** A trimmed form of [key] is what [strip] returns. *)
Lemma trimmed_of_strip key m : trimmed_of key m → strip key = m.
Proof.
  intros (l & r & -> & Hl & Hr & Hstart & Hend). unfold strip.
  rewrite (lstrip_spaces l _ (proj1 (blank_all_space l) Hl)).
  destruct m as [|c m].
  - change ("" +:+ r) with r. rewrite (lstrip_blank r Hr). reflexivity.
  - change (String c m +:+ r) with (String c (m +:+ r)). cbn [lstrip].
    rewrite (not_starts_blank_cons c m Hstart).
    change (String c (m +:+ r)) with (String c m +:+ r).
    rewrite (rstrip_app_blank _ r Hr). apply rstrip_fixed, Hend.
Qed.

Lemma lstrip_split key :
  ∃ l, key = l +:+ lstrip key ∧ blank l ∧ ¬ starts_blank (lstrip key).
Proof.
  induction key as [|c key (l & Hk & Hl & Hs)].
  - exists "". split; [reflexivity|]. split; [exact I|].
    intros (c & m & Hm & _). discriminate Hm.
  - cbn [lstrip]. destruct (isspace c) eqn:Hc.
    + exists (String c l). split; [|split; [|exact Hs]].
      * change (String c l +:+ lstrip key) with (String c (l +:+ lstrip key)).
        rewrite <- Hk. reflexivity.
      * split; [apply isspace_whitespace, Hc | exact Hl].
    + exists "". split; [reflexivity|]. split; [exact I|].
      intros (c' & m & [= <- <-] & Hc'%isspace_whitespace). congruence.
Qed.

Lemma app_single_inv c X m' c0 :
  String c X = m' +:+ String c0 "" →
  (X = "" ∧ m' = "" ∧ c0 = c) ∨ (∃ m1, m' = String c m1 ∧ X = m1 +:+ String c0 "").
Proof.
  destruct m' as [|c1 m1].
  - intros [= -> ->]. left. auto.
  - change (String c1 m1 +:+ String c0 "") with (String c1 (m1 +:+ String c0 "")).
    intros [= -> ->]. right. exists m1. auto.
Qed.

Lemma rstrip_split s :
  ∃ r, s = rstrip s +:+ r ∧ blank r ∧ ¬ ends_blank (rstrip s).
Proof.
  induction s as [|c s (r & Hs & Hr & He)].
  - exists "". split; [reflexivity|]. split; [exact I|].
    intros ([|c m] & c0 & Hm & _); discriminate Hm.
  - cbn [rstrip]. destruct (rstrip s) as [|c1 m1] eqn:E.
    + change ("" +:+ r) with r in Hs. subst r.
      destruct (isspace c) eqn:Hc.
      * exists (String c s). split; [reflexivity|].
        split; [split; [apply isspace_whitespace, Hc | exact Hr]|].
        intros ([|c' m] & c0 & Hm & _); discriminate Hm.
      * exists s. split; [reflexivity|]. split; [exact Hr|].
        intros (m' & c0 & Hm & Hc0).
        apply app_single_inv in Hm as [(_ & _ & ->)|(m2 & _ & Hm)].
        -- apply isspace_whitespace in Hc0. congruence.
        -- destruct m2; discriminate Hm.
    + exists r. split; [|split; [exact Hr|]].
      * change (String c (String c1 m1) +:+ r)
          with (String c (String c1 m1 +:+ r)).
        rewrite <- Hs. reflexivity.
      * intros (m' & c0 & Hm & Hc0).
        apply app_single_inv in Hm as [(Hm & _)|(m2 & _ & Hm)];
          [discriminate Hm|].
        apply He. exists m2, c0. auto.
Qed.

(** Every key has a trimmed form, the one [strip] returns. *)
Lemma strip_trimmed key : trimmed_of key (strip key).
Proof.
  unfold strip. destruct (lstrip_split key) as (l & Hk & Hl & Hstart).
  destruct (rstrip_split (lstrip key)) as (r & Hs & Hr & Hend).
  exists l, r. split; [|split; [exact Hl|split; [exact Hr|split; [|exact Hend]]]].
  - rewrite <- Hs. exact Hk.
  - intros (c & m & Hm & Hc). apply Hstart. rewrite Hs, Hm.
    exists c, (m +:+ r). split; [reflexivity | exact Hc].
Qed.

Lemma lower_single m c :
  lower m = String c "" → ∃ c0, m = String c0 "" ∧ lower_char c0 = c.
Proof.
  destruct m as [|c0 [|c1 m]]; cbn [lower]; intros [= <-].
  exists c0. auto.
Qed.

Lemma lower_char_letter c0 :
  (lower_char c0 = "w"%char → c0 = "w"%char ∨ c0 = "W"%char)
  ∧ (lower_char c0 = "a"%char → c0 = "a"%char ∨ c0 = "A"%char)
  ∧ (lower_char c0 = "s"%char → c0 = "s"%char ∨ c0 = "S"%char)
  ∧ (lower_char c0 = "d"%char → c0 = "d"%char ∨ c0 = "D"%char)
  ∧ (lower_char c0 = "q"%char → c0 = "q"%char ∨ c0 = "Q"%char).
Proof.
  destruct c0 as [[] [] [] [] [] [] [] []]; vm_compute;
    repeat split; intros H; try discriminate H; auto.
Qed.

(** Refutes membership of a given element in a given list. *)
Ltac not_in_list H :=
  repeat (apply elem_of_cons in H as [H|H]; [discriminate H|]);
  apply elem_of_nil in H; exact H.

Lemma lower_letter m c :
  lower m = String c "" →
  ∃ c0, m = String c0 ""
    ∧ (c = "w"%char → c0 = "w"%char ∨ c0 = "W"%char)
    ∧ (c = "a"%char → c0 = "a"%char ∨ c0 = "A"%char)
    ∧ (c = "s"%char → c0 = "s"%char ∨ c0 = "S"%char)
    ∧ (c = "d"%char → c0 = "d"%char ∨ c0 = "D"%char)
    ∧ (c = "q"%char → c0 = "q"%char ∨ c0 = "Q"%char).
Proof.
  intros (c0 & -> & <-)%lower_single. exists c0.
  split; [reflexivity | apply lower_char_letter].
Qed.

(** C7: for every key (a string of code points below 256), [move] works on
    the key trimmed of its leading and trailing whitespace and lowercased.
    Every key has a trimmed form [m], the key between a whitespace prefix
    and a whitespace suffix.  When [m] is w, a, s or d in either case the
    directions UP, LEFT, DOWN, RIGHT are requested and true is returned;
    when it is q in either case false is returned; any other [m] changes
    nothing and returns true. *)
Theorem move_key_table (s : Snake) (key : string) :
  (∃ m, trimmed_of key m)
  ∧ ∀ m, trimmed_of key m →
      (m = "w" ∨ m = "W" → move s key = (requested s UP, true))
      ∧ (m = "a" ∨ m = "A" → move s key = (requested s LEFT, true))
      ∧ (m = "s" ∨ m = "S" → move s key = (requested s DOWN, true))
      ∧ (m = "d" ∨ m = "D" → move s key = (requested s RIGHT, true))
      ∧ (m = "q" ∨ m = "Q" → move s key = (s, false))
      ∧ (m ∉ ["w"; "W"; "a"; "A"; "s"; "S"; "d"; "D"; "q"; "Q"] →
         move s key = (s, true)).
Proof.
  split; [exists (strip key); apply strip_trimmed|].
  intros m Hm. apply trimmed_of_strip in Hm.
  pose proof (move_on_normalised s key) as H. cbn zeta in H. rewrite Hm in H.
  destruct H as (Hw & Ha & Hs & Hd & Hq & Hother).
  split; [intros [->| ->]; apply Hw; reflexivity|].
  split; [intros [->| ->]; apply Ha; reflexivity|].
  split; [intros [->| ->]; apply Hs; reflexivity|].
  split; [intros [->| ->]; apply Hd; reflexivity|].
  split; [intros [->| ->]; apply Hq; reflexivity|].
  intros Hnot.
  assert (Hno : ∀ c, lower m = String c "" →
                c ≠ "w"%char ∧ c ≠ "a"%char ∧ c ≠ "s"%char
                ∧ c ≠ "d"%char ∧ c ≠ "q"%char).
  { intros c (c0 & -> & Lw & La & Ls & Ld & Lq)%lower_letter.
    repeat split; intros ->.
    - destruct (Lw eq_refl) as [-> | ->]; apply Hnot; repeat constructor.
    - destruct (La eq_refl) as [-> | ->]; apply Hnot; repeat constructor.
    - destruct (Ls eq_refl) as [-> | ->]; apply Hnot; repeat constructor.
    - destruct (Ld eq_refl) as [-> | ->]; apply Hnot; repeat constructor.
    - destruct (Lq eq_refl) as [-> | ->]; apply Hnot; repeat constructor. }
  apply Hother; intros Hc; destruct (Hno _ Hc) as (? & ? & ? & ? & ?); done.
Qed.

Lemma move_key_table_witness :
  move (Snake_init 5 5 RIGHT) (String "009" " W " +:+ String "010" "")
  = (requested (Snake_init 5 5 RIGHT) UP, true)
  ∧ move (Snake_init 5 5 RIGHT) " Q" = (Snake_init 5 5 RIGHT, false)
  ∧ move (Snake_init 5 5 RIGHT) "x " = (Snake_init 5 5 RIGHT, true).
Proof.
  split; [|split].
  - apply (proj2 (move_key_table (Snake_init 5 5 RIGHT)
                    (String "009" " W " +:+ String "010" "")) "W");
      [|right; reflexivity].
    exists (String "009" " "), (" " +:+ String "010" "").
    split; [reflexivity|]. unfold starts_blank, ends_blank, whitespace_chars.
    cbn [blank]. repeat split; try (repeat constructor; fail).
    + intros (c & m' & [= <- <-] & Hc). not_in_list Hc.
    + intros (m' & c & Hm & Hc).
      apply app_single_inv in Hm as [(_ & _ & ->)|(m2 & _ & Hm)];
        [not_in_list Hc | destruct m2; discriminate Hm].
  - apply (proj2 (move_key_table (Snake_init 5 5 RIGHT) " Q") "Q");
      [|right; reflexivity].
    exists " ", "". split; [reflexivity|].
    unfold starts_blank, ends_blank, whitespace_chars.
    cbn [blank]. repeat split; try (repeat constructor; fail).
    + intros (c & m' & [= <- <-] & Hc). not_in_list Hc.
    + intros (m' & c & Hm & Hc).
      apply app_single_inv in Hm as [(_ & _ & ->)|(m2 & _ & Hm)];
        [not_in_list Hc | destruct m2; discriminate Hm].
  - apply (proj2 (move_key_table (Snake_init 5 5 RIGHT) "x ") "x");
      [|intros Hc; not_in_list Hc].
    exists "", " ". split; [reflexivity|].
    unfold starts_blank, ends_blank, whitespace_chars.
    cbn [blank]. repeat split; try (repeat constructor; fail).
    + intros (c & m' & [= <- <-] & Hc). not_in_list Hc.
    + intros (m' & c & Hm & Hc).
      apply app_single_inv in Hm as [(_ & _ & ->)|(m2 & _ & Hm)];
        [not_in_list Hc | destruct m2; discriminate Hm].
Defined.

Example move_upper_w_padded :
  move (mkSnake [mkPoint2D 5 5] RIGHT) (String "009" "W " +:+ String "010" "")
  = (mkSnake [mkPoint2D 5 5] UP, true).
Proof. vm_compute. reflexivity. Qed.

Example move_q : move (mkSnake [mkPoint2D 5 5] RIGHT) "Q" = (mkSnake [mkPoint2D 5 5] RIGHT, false).
Proof. vm_compute. reflexivity. Qed.

Example move_other : move (mkSnake [mkPoint2D 5 5] RIGHT) "x" = (mkSnake [mkPoint2D 5 5] RIGHT, true).
Proof. vm_compute. reflexivity. Qed.

Lemma move_coords s key : coords (move s key).1 = coords s.
Proof.
  unfold move.
  destruct (char_to_direction !! _) as [d|];
    [destruct (negb _)|]; destruct (String.eqb _ _); reflexivity.
Qed.

(** The eating tick of the main loop with a key read between the extra
    [grow] and [update]: [move] keeps the body, so the count is the same. *)
Lemma eating_tick_with_key (s : Snake) (key : string) (x_bounds y_bounds : Z) :
  coords s ≠ [] → x_bounds ≠ 0 → y_bounds ≠ 0 →
  ∃ s1, grow s = Ok s1
    ∧ ∃ s2, update (move s1 key).1 x_bounds y_bounds = Ok s2
            ∧ length (coords s2) = S (length (coords s)).
Proof.
  intros Hne Hx Hy. destruct s as [[|h t] d]; [done|].
  eexists. split; [apply grow_cons|].
  pose proof (move_coords (mkSnake (Point2D_add h (value d) :: h :: t) d) key)
    as Hc.
  destruct (move _ key).1 as [cs d']. cbn [coords] in Hc. subst cs.
  eexists. split; [apply update_cons; assumption|].
  cbn [coords length]. rewrite removelast_length, length_fmap. reflexivity.
Qed.

(** C10: [move] never touches the body; the direction stays or becomes the
    direction the table gives for the key. *)
Theorem move_frame (s : Snake) (key : string) :
  coords (move s key).1 = coords s
  ∧ (direction (move s key).1 = direction s
     ∨ char_to_direction !! lower (strip key)
       = Some (direction (move s key).1)).
Proof.
  split; [apply move_coords|].
  destruct (char_to_direction !! lower (strip key)) as [d|] eqn:Hd.
  - rewrite (move_mapped s key d Hd).
    destruct (Point2D_eq _ _); simpl; auto.
  - rewrite (move_unmapped s key Hd). simpl. auto.
Qed.

(** ** Properties of [is_dead] *)

Lemma py_in_true p l : py_in p l = true ↔ p ∈ l.
Proof.
  unfold py_in. rewrite existsb_exists. split.
  - intros (q & Hq & Heq). apply Point2D_eq_true in Heq. subst q.
    apply list_elem_of_In, Hq.
  - intros Hp. exists p. split; [apply list_elem_of_In, Hp|].
    apply Point2D_eq_true. reflexivity.
Qed.

Lemma is_dead_cons h t d : is_dead (mkSnake (h :: t) d) = Ok (py_in h t).
Proof. reflexivity. Qed.

(** C6: on a non-empty body [is_dead] returns true exactly when the head
    equals some later segment; a body without repeats gives false. *)
Theorem is_dead_iff_head_repeated (s : Snake) :
  coords s ≠ [] →
  ∃ h t b, coords s = h :: t ∧ is_dead s = Ok b
    ∧ (b = true ↔ h ∈ t)
    ∧ (NoDup (coords s) → b = false).
Proof.
  intros Hne. destruct s as [[|h t] d]; [done|].
  exists h, t, (py_in h t). split; [reflexivity|].
  split; [apply is_dead_cons|]. split; [apply py_in_true|].
  cbn [coords]. intros Hnd. apply NoDup_cons in Hnd as [Hh _].
  apply not_true_is_false. rewrite py_in_true. exact Hh.
Qed.

Lemma is_dead_iff_head_repeated_witness :
  ∃ h t b,
    coords (mkSnake [mkPoint2D 1 1; mkPoint2D 1 2; mkPoint2D 1 1] UP) = h :: t
    ∧ is_dead (mkSnake [mkPoint2D 1 1; mkPoint2D 1 2; mkPoint2D 1 1] UP) = Ok b
    ∧ (b = true ↔ h ∈ t)
    ∧ (NoDup (coords (mkSnake [mkPoint2D 1 1; mkPoint2D 1 2; mkPoint2D 1 1] UP))
       → b = false).
Proof.
  apply (is_dead_iff_head_repeated
           (mkSnake [mkPoint2D 1 1; mkPoint2D 1 2; mkPoint2D 1 1] UP)).
  discriminate.
Defined.

Example is_dead_true :
  is_dead (mkSnake [mkPoint2D 1 1; mkPoint2D 1 2; mkPoint2D 1 1] UP) = Ok true.
Proof. reflexivity. Qed.

Example is_dead_false :
  is_dead (mkSnake [mkPoint2D 1 1; mkPoint2D 1 2; mkPoint2D 1 3] UP) = Ok false.
Proof. reflexivity. Qed.

(** ** Properties of [new_apple_location] *)

Lemma elem_of_range (n a : Z) : a ∈ range n ↔ 0 ≤ a < n.
Proof. unfold range. rewrite elem_of_seqZ. lia. Qed.

Lemma elem_of_free_cells x_bounds y_bounds (occ : gset Point2D) p :
  p ∈ free_cells x_bounds y_bounds occ
  ↔ in_bounds x_bounds y_bounds p ∧ p ∉ occ.
Proof.
  unfold free_cells, in_bounds. rewrite list_elem_of_bind. split.
  - intros (a & Hb & Ha). apply list_elem_of_bind in Hb as (b & Hp & Hb).
    apply elem_of_range in Ha, Hb.
    destruct (decide (mkPoint2D a b ∈ occ)) as [|Hfree]; [inversion Hp|].
    apply list_elem_of_singleton in Hp. subst p. simpl. auto.
  - intros ([Ha Hb] & Hfree). destruct p as [a b]; simpl in *.
    exists a. split; [|apply elem_of_range, Ha].
    apply list_elem_of_bind. exists b. split; [|apply elem_of_range, Hb].
    rewrite decide_False by assumption. apply list_elem_of_singleton. reflexivity.
Qed.

Lemma py_getitem_nat {A} (l : list A) (n : nat) a :
  l !! n = Some a → py_getitem l (Z.of_nat n) = Ok a.
Proof.
  intros Hl. pose proof (lookup_lt_Some _ _ _ Hl) as Hlt.
  unfold py_getitem, py_index.
  destruct (Z.leb_spec 0 (Z.of_nat n)); [|lia].
  destruct (Z.ltb_spec (Z.of_nat n) (Z.of_nat (length l))); [|lia].
  simpl. rewrite Nat2Z.id, Hl. reflexivity.
Qed.

Lemma choice_elem_of {A} (randbelow : nat → nat) (l : list A) :
  (∀ n, (0 < n)%nat → (randbelow n < n)%nat) →
  l ≠ [] → ∃ a, choice randbelow l = Ok a ∧ a ∈ l.
Proof.
  intros Hrand Hne.
  assert (Hlt : (randbelow (length l) < length l)%nat).
  { apply Hrand. destruct l; [done | simpl; lia]. }
  apply lookup_lt_is_Some in Hlt as [a Ha]. exists a. split.
  - destruct l; [done|]. unfold choice. apply py_getitem_nat, Ha.
  - apply list_elem_of_lookup. eauto.
Qed.



(** ** Properties of [plot] *)

Lemma py_index_lt len i n : py_index len i = Ok n → (n < len)%nat.
Proof.
  unfold py_index.
  destruct (Z.leb_spec 0 i), (Z.ltb_spec i (Z.of_nat len)); simpl;
    try (intros [= <-]; lia);
    destruct (Z.leb_spec (- Z.of_nat len) i), (Z.ltb_spec i 0); simpl;
    try discriminate; intros [= <-]; lia.
Qed.

Lemma py_index_in_range len i :
  - Z.of_nat len ≤ i < Z.of_nat len → ∃ n, py_index len i = Ok n.
Proof.
  intros Hi. unfold py_index.
  destruct (Z.leb_spec 0 i), (Z.ltb_spec i (Z.of_nat len)); simpl;
    try (eexists; reflexivity);
    destruct (Z.leb_spec (- Z.of_nat len) i), (Z.ltb_spec i 0); simpl;
    try (eexists; reflexivity); lia.
Qed.

Lemma board_set_ok w h board i j v :
  board_ok w h board → is_cell v →
  - Z.of_nat h ≤ i < Z.of_nat h → - Z.of_nat w ≤ j < Z.of_nat w →
  ∃ board', board_set board i j v = Ok board' ∧ board_ok w h board'.
Proof.
  intros [Hlen Hrows] Hv Hi Hj. unfold board_set, py_getitem, py_setitem.
  rewrite Hlen. destruct (py_index_in_range h i Hi) as [n Hn]. rewrite Hn.
  cbn [mbind result_bind].
  pose proof (py_index_lt _ _ _ Hn) as Hlt. rewrite <- Hlen in Hlt.
  apply lookup_lt_is_Some in Hlt as [row Hrow]. rewrite Hrow.
  pose proof (proj1 (Forall_lookup _ _) Hrows n row Hrow) as [Hw Hcells].
  cbn [mbind result_bind].
  rewrite Hw. destruct (py_index_in_range w j Hj) as [m Hm]. rewrite Hm.
  cbn [mbind result_bind].
  eexists. split; [reflexivity|]. split.
  - rewrite length_insert. exact Hlen.
  - apply Forall_insert; [exact Hrows|]. split.
    + rewrite length_insert. exact Hw.
    + apply Forall_insert; assumption.
Qed.

Lemma plot_points_ok x_bounds y_bounds points : ∀ board,
  board_ok (Z.to_nat x_bounds) (Z.to_nat y_bounds) board →
  ∃ board', plot_points x_bounds y_bounds board points = Ok board'
            ∧ board_ok (Z.to_nat x_bounds) (Z.to_nat y_bounds) board'.
Proof.
  induction points as [|point rest IH]; intros board Hok.
  - exists board. split; [reflexivity | exact Hok].
  - cbn [plot_points]. unfold plot_point.
    destruct (Z.leb_spec 0 (x point)), (Z.ltb_spec (x point) x_bounds),
      (Z.leb_spec 0 (y point)), (Z.ltb_spec (y point) y_bounds);
      cbn [andb mbind result_bind]; try (apply IH; exact Hok).
    destruct (board_set_ok _ _ board (y point) (x point)
                (GREEN +:+ "S" +:+ RESET) Hok) as (board' & -> & Hok');
      [right; right; reflexivity | lia | lia |].
    cbn [mbind result_bind]. apply IH, Hok'.
Qed.

Lemma blank_board_ok x_bounds y_bounds :
  board_ok (Z.to_nat x_bounds) (Z.to_nat y_bounds)
    ((λ _, (λ _, " ") <$> range x_bounds) <$> range y_bounds).
Proof.
  unfold board_ok, range. rewrite length_fmap, length_seqZ. split; [lia|].
  apply Forall_fmap, Forall_forall. intros b _. cbn. split.
  - rewrite length_fmap, length_seqZ. lia.
  - apply Forall_fmap, Forall_forall. intros a _. left. reflexivity.
Qed.

Lemma string_length_app (s t : string) :
  String.length (s +:+ t) = (String.length s + String.length t)%nat.
Proof. induction s as [|c s IH]; simpl; [reflexivity | rewrite IH; reflexivity]. Qed.

Lemma str_mul_dash_length (n : Z) :
  String.length (str_mul "-" n) = Z.to_nat n.
Proof.
  unfold str_mul. induction (Z.to_nat n) as [|k IH]; [reflexivity|].
  destruct k as [|k]; [reflexivity|].
  change (replicate (S (S k)) "-") with ("-" :: replicate (S k) "-").
  change (String.length (String "-" (String.concat "" (replicate (S k) "-")))
          = S (S k)).
  cbn [String.length]. f_equal. exact IH.
Qed.

(** The border is as wide as a rendered row of blank cells: a corner, two
    dashes per column, a corner, inside the colour codes. *)
Lemma horizontal_border_length (x_bounds : Z) :
  String.length (horizontal_border x_bounds)
  = (String.length BLUE + 1 + 2 * Z.to_nat x_bounds + 1 + String.length RESET)%nat.
Proof.
  unfold horizontal_border. rewrite !string_length_app.
  change (str_mul (str_mul "-" x_bounds) 2)
    with (str_mul "-" x_bounds +:+ ("" +:+ str_mul "-" x_bounds)).
  rewrite !string_length_app, str_mul_dash_length. simpl. lia.
Qed.

Lemma str_mul_dashes (n : Z) : str_mul "-" n = dashes (Z.to_nat n).
Proof.
  unfold str_mul. induction (Z.to_nat n) as [|k IH]; [reflexivity|].
  destruct k as [|k]; [reflexivity|].
  change (replicate (S (S k)) "-") with ("-" :: replicate (S k) "-").
  change (String.concat "" ("-" :: replicate (S k) "-"))
    with (String "-" (String.concat "" (replicate (S k) "-"))).
  rewrite IH. reflexivity.
Qed.

Lemma dashes_app (a b : nat) : dashes a +:+ dashes b = dashes (a + b).
Proof.
  induction a as [|a IH]; [reflexivity|].
  change (String "-" (dashes a +:+ dashes b) = String "-" (dashes (a + b))).
  rewrite IH. reflexivity.
Qed.

(** The border [plot] builds, written out. *)
Lemma horizontal_border_text (x_bounds : Z) :
  horizontal_border x_bounds = border_text (Z.to_nat x_bounds).
Proof.
  unfold horizontal_border, border_text.
  change (str_mul (str_mul "-" x_bounds) 2)
    with (str_mul "-" x_bounds +:+ ("" +:+ str_mul "-" x_bounds)).
  change ("" +:+ str_mul "-" x_bounds) with (str_mul "-" x_bounds).
  rewrite str_mul_dashes, dashes_app.
  replace (Z.to_nat x_bounds + Z.to_nat x_bounds)%nat
    with (2 * Z.to_nat x_bounds)%nat by lia.
  reflexivity.
Qed.

(** A row as [plot] renders it, written out. *)
Lemma render_row_text (row : list string) :
  render_row row = bar_text +:+ String.concat " " row +:+ " " +:+ bar_text.
Proof. reflexivity. Qed.

Lemma is_cell_text (c : string) : is_cell c → cell_text c.
Proof. intros H. exact H. Qed.

(** C8: for positive bounds (and an apple that indexes the board) [plot]
    clears the screen and returns [y_bounds + 2] lines.  The first and the
    last are the same border: blue, a plus sign, two dashes per column, a
    plus sign, reset.  Each of the [y_bounds] lines between them is the
    blue vertical bar, the [x_bounds] cells of the row separated by single
    spaces, one more space and the blue vertical bar; a cell is a blank,
    the red A or the green S. *)
Theorem plot_frame (x_bounds y_bounds : Z) (snake : Snake) (apple : Point2D) :
  0 < x_bounds → 0 < y_bounds →
  - x_bounds ≤ x apple < x_bounds → - y_bounds ≤ y apple < y_bounds →
  ∃ lines, plot x_bounds y_bounds snake apple = ([Clear], Ok lines)
    ∧ Z.of_nat (length lines) = y_bounds + 2
    ∧ lines !! 0%nat = Some (border_text (Z.to_nat x_bounds))
    ∧ lines !! (Z.to_nat y_bounds + 1)%nat
      = Some (border_text (Z.to_nat x_bounds))
    ∧ ∀ i, (i < Z.to_nat y_bounds)%nat →
        ∃ row, lines !! S i
               = Some (bar_text +:+ String.concat " " row +:+ " " +:+ bar_text)
               ∧ Z.of_nat (length row) = x_bounds ∧ Forall cell_text row.
Proof.
  intros Hx Hy Hax Hay. unfold plot.
  destruct (board_set_ok _ _ _ (y apple) (x apple) (RED +:+ "A" +:+ RESET)
              (blank_board_ok x_bounds y_bounds)) as (b1 & -> & Hok1);
    [right; left; reflexivity | lia | lia |].
  cbn [mbind result_bind].
  destruct (plot_points_ok x_bounds y_bounds (coords snake) b1 Hok1)
    as (b2 & -> & [Hlen Hrows]).
  cbn [mbind result_bind mret result_ret].
  eexists. split; [reflexivity|].
  rewrite horizontal_border_text.
  split; [|split; [|split]].
  - cbn [app length]. rewrite length_app, length_fmap, Hlen. simpl. lia.
  - reflexivity.
  - cbn [app]. rewrite lookup_cons_ne_0 by lia.
    rewrite lookup_app_r; rewrite length_fmap, Hlen; [|lia].
    replace (Nat.pred (Z.to_nat y_bounds + 1) - Z.to_nat y_bounds)%nat
      with 0%nat by lia.
    reflexivity.
  - intros i Hi. rewrite <- Hlen in Hi.
    apply lookup_lt_is_Some in Hi as [row Hrow].
    pose proof (proj1 (Forall_lookup _ _) Hrows i row Hrow) as [Hw Hcells].
    exists row. split; [|split; [lia|]].
    + cbn [app]. rewrite lookup_cons_ne_0 by lia. cbn [Nat.pred].
      rewrite lookup_app_l.
      * rewrite list_lookup_fmap, Hrow. cbn [fmap option_fmap option_map].
        rewrite render_row_text. reflexivity.
      * rewrite length_fmap. apply lookup_lt_Some in Hrow. exact Hrow.
    + eapply Forall_impl; [exact Hcells | exact is_cell_text].
Qed.

Lemma plot_frame_witness :
  ∃ lines, plot 2 1 (mkSnake [mkPoint2D 0 0] UP) (mkPoint2D 1 0)
           = ([Clear], Ok lines)
    ∧ Z.of_nat (length lines) = 1 + 2
    ∧ lines !! 0%nat = Some (border_text (Z.to_nat 2))
    ∧ lines !! (Z.to_nat 1 + 1)%nat = Some (border_text (Z.to_nat 2))
    ∧ ∀ i, (i < Z.to_nat 1)%nat →
        ∃ row, lines !! S i
               = Some (bar_text +:+ String.concat " " row +:+ " " +:+ bar_text)
               ∧ Z.of_nat (length row) = 2 ∧ Forall cell_text row.
Proof.
  apply (plot_frame 2 1 (mkSnake [mkPoint2D 0 0] UP) (mkPoint2D 1 0));
    simpl; lia.
Defined.

(** The whole frame of a 2 x 1 board, character by character. *)
Example plot_2x1_text :
  plot 2 1 (mkSnake [mkPoint2D 0 0] UP) (mkPoint2D 1 0)
  = ([Clear],
     Ok [String "027" "[34m+----+" +:+ String "027" "[0m";
         String "027" "[34m|" +:+ String "027" "[0m"
           +:+ String "027" "[32mS" +:+ String "027" "[0m "
           +:+ String "027" "[31mA" +:+ String "027" "[0m "
           +:+ String "027" "[34m|" +:+ String "027" "[0m";
         String "027" "[34m+----+" +:+ String "027" "[0m"]).
Proof. vm_compute. reflexivity. Qed.

(** ** Further properties of the geometry *)

Lemma py_mod_ok a b : b ≠ 0 → py_mod a b = Ok (a mod b).
Proof. intros Hb. unfold py_mod. destruct (Z.eqb_spec b 0); [done | reflexivity]. Qed.

Lemma squash_Ok_inv p r x_bounds y_bounds :
  squash p x_bounds y_bounds = Ok r →
  x_bounds ≠ 0 ∧ y_bounds ≠ 0 ∧ r = wrapped x_bounds y_bounds p.
Proof.
  unfold squash, py_mod.
  destruct (Z.eqb_spec x_bounds 0); [discriminate|].
  destruct (Z.eqb_spec y_bounds 0); [discriminate|].
  intros [= <-]. auto.
Qed.

(** X1: [squash] raises [ZeroDivisionError] exactly when one of the bounds
    is zero; it raises nothing else. *)
Theorem squash_zero_bound (p : Point2D) (x_bounds y_bounds : Z) :
  (squash p x_bounds y_bounds = Raise ZeroDivisionError
   ↔ x_bounds = 0 ∨ y_bounds = 0)
  ∧ (∀ e, squash p x_bounds y_bounds = Raise e → e = ZeroDivisionError).
Proof.
  unfold squash, py_mod.
  destruct (Z.eqb_spec x_bounds 0), (Z.eqb_spec y_bounds 0); cbn.
  - split; [split; auto | intros ? [= <-]; reflexivity].
  - split; [split; auto | intros ? [= <-]; reflexivity].
  - split; [split; auto | intros ? [= <-]; reflexivity].
  - split; [split; [discriminate | lia] | discriminate].
Qed.

(** X2: a point already inside the rectangle is left where it is. *)
Theorem squash_fixes_in_bounds (p : Point2D) (x_bounds y_bounds : Z) :
  in_bounds x_bounds y_bounds p → squash p x_bounds y_bounds = Ok p.
Proof.
  intros [Hx Hy]. rewrite squash_ok by lia. unfold wrapped.
  rewrite !Z.mod_small by lia. destruct p; reflexivity.
Qed.

Lemma squash_fixes_in_bounds_witness :
  squash (mkPoint2D 29 19) 30 20 = Ok (mkPoint2D 29 19).
Proof.
  apply (squash_fixes_in_bounds (mkPoint2D 29 19) 30 20).
  unfold in_bounds; simpl; lia.
Defined.

(** X3: wrapping twice is wrapping once, for bounds of either sign. *)
Theorem squash_idempotent (p r : Point2D) (x_bounds y_bounds : Z) :
  squash p x_bounds y_bounds = Ok r → squash r x_bounds y_bounds = Ok r.
Proof.
  intros (Hx & Hy & ->)%squash_Ok_inv. rewrite squash_ok by assumption.
  unfold wrapped; simpl. rewrite !Z.mod_mod by assumption. reflexivity.
Qed.

Lemma squash_idempotent_witness :
  squash (mkPoint2D 29 0) 30 20 = Ok (mkPoint2D 29 0).
Proof.
  apply (squash_idempotent (mkPoint2D (-1) 20) (mkPoint2D 29 0) 30 20).
  reflexivity.
Defined.

(** X4: points that differ by whole board widths and heights wrap to the
    same cell (and raise alike when a bound is zero). *)
Theorem squash_periodic (p : Point2D) (k l x_bounds y_bounds : Z) :
  squash (Point2D_add p (mkPoint2D (k * x_bounds) (l * y_bounds)))
         x_bounds y_bounds
  = squash p x_bounds y_bounds.
Proof.
  unfold squash, py_mod, Point2D_add; simpl.
  destruct (Z.eqb_spec x_bounds 0); [reflexivity|].
  destruct (Z.eqb_spec y_bounds 0); [reflexivity|].
  rewrite !Z_mod_plus_full. reflexivity.
Qed.

(** X5: with negative bounds nothing is raised and the result lies in
    (x_bounds, 0] x (y_bounds, 0], the remainder taking the divisor's sign. *)
Theorem squash_negative_bounds (p : Point2D) (x_bounds y_bounds : Z) :
  x_bounds < 0 → y_bounds < 0 →
  ∃ r, squash p x_bounds y_bounds = Ok r
       ∧ x_bounds < x r ≤ 0 ∧ y_bounds < y r ≤ 0.
Proof.
  intros Hx Hy. exists (wrapped x_bounds y_bounds p).
  split; [apply squash_ok; lia|]. simpl.
  split; apply Z.mod_neg_bound; assumption.
Qed.

Lemma squash_negative_bounds_witness :
  ∃ r, squash (mkPoint2D 7 (-7)) (-5) (-3) = Ok r
       ∧ -5 < x r ≤ 0 ∧ -3 < y r ≤ 0.
Proof. apply (squash_negative_bounds (mkPoint2D 7 (-7)) (-5) (-3)); lia. Defined.

(** X6: points with [__add__] and [__neg__] form a commutative group whose
    zero is (0, 0). *)
Theorem Point2D_group (p q r : Point2D) :
  Point2D_add p q = Point2D_add q p
  ∧ Point2D_add (Point2D_add p q) r = Point2D_add p (Point2D_add q r)
  ∧ Point2D_add p (mkPoint2D 0 0) = p
  ∧ Point2D_add p (Point2D_neg p) = mkPoint2D 0 0
  ∧ Point2D_neg (Point2D_add p q) = Point2D_add (Point2D_neg p) (Point2D_neg q).
Proof.
  destruct p as [a b], q as [c d], r as [e f].
  unfold Point2D_add, Point2D_neg; simpl.
  repeat split; f_equal; lia.
Qed.

(** X7: the four directions carry four different vectors, and the vector
    of one is the negation of another's exactly for UP/DOWN and LEFT/RIGHT. *)
Theorem value_opposite (d d' : Direction) :
  (value d = value d' ↔ d = d')
  ∧ (value d' = Point2D_neg (value d) ↔ d' = opposite d).
Proof.
  split; split; intros H;
    destruct d, d'; try reflexivity; try discriminate H.
Qed.

(** ** Further properties of the snake *)

Lemma move_padded_char_witness :
  move (Snake_init 5 5 RIGHT) ("  " +:+ String "W" (String "010" ""))
  = move (Snake_init 5 5 RIGHT) "w".
Proof.
  apply (move_padded_char (Snake_init 5 5 RIGHT) "  " "W" (String "010" ""));
    reflexivity.
Defined.

Lemma value_not_self_reverse d : value d ≠ Point2D_neg (value d).
Proof. destruct d; discriminate. Qed.

(** X9: whatever the key, the direction after [move] is never the reverse
    of the direction before it. *)
Theorem move_never_reverses (s : Snake) (key : string) :
  value (direction (move s key).1) ≠ Point2D_neg (value (direction s)).
Proof.
  destruct (char_to_direction !! lower (strip key)) as [d|] eqn:Hd.
  - rewrite (move_mapped s key d Hd).
    destruct (Point2D_eq _ _) eqn:E.
    + apply value_not_self_reverse.
    + cbn [direction]. intros Hrev. apply reversal_test in Hrev. congruence.
  - rewrite (move_unmapped s key Hd). apply value_not_self_reverse.
Qed.

(** X10: pressing the same key twice in a row changes nothing more than
    pressing it once. *)
Theorem move_idempotent (s : Snake) (key : string) :
  move (move s key).1 key = move s key.
Proof.
  rewrite (surjective_pairing (move (move s key).1 key)).
  rewrite (surjective_pairing (move s key)) at 3.
  rewrite !move_flag. f_equal.
  destruct (char_to_direction !! lower (strip key)) as [d|] eqn:Hd.
  - rewrite !(move_mapped _ key d Hd).
    destruct (Point2D_eq (value (direction s)) _) eqn:E.
    + rewrite E. reflexivity.
    + cbn [direction coords].
      destruct (Point2D_eq (value d) _) eqn:E'; [|reflexivity].
      apply Point2D_eq_true in E'. destruct (value_not_self_reverse d E').
  - rewrite !(move_unmapped _ key Hd). reflexivity.
Qed.

(** X11: a key that is not a single character once trimmed (the empty
    string, several characters) changes nothing and lets the loop go on. *)
Theorem move_long_key_ignored (s : Snake) (key : string) :
  String.length (lower (strip key)) ≠ 1%nat → move s key = (s, true).
Proof.
  intros Hlen. rewrite move_unmapped.
  - destruct (String.eqb_spec (lower (strip key)) "q") as [Hq|]; [|reflexivity].
    rewrite Hq in Hlen. done.
  - apply char_to_direction_None; intros Hc; rewrite Hc in Hlen; done.
Qed.

Lemma move_long_key_ignored_witness :
  move (Snake_init 5 5 RIGHT) " ww " = (Snake_init 5 5 RIGHT, true).
Proof.
  apply (move_long_key_ignored (Snake_init 5 5 RIGHT) " ww ").
  vm_compute. discriminate.
Defined.

Lemma squash_raises p x_bounds y_bounds :
  x_bounds = 0 ∨ y_bounds = 0 →
  squash p x_bounds y_bounds = Raise ZeroDivisionError.
Proof.
  intros H. unfold squash, py_mod.
  destruct (Z.eqb_spec x_bounds 0); [reflexivity|].
  destruct (Z.eqb_spec y_bounds 0); [reflexivity | lia].
Qed.

(** X12: [update] raises [IndexError] on an empty body, whatever the
    bounds; on a body with a segment it raises [ZeroDivisionError] when a
    bound is zero and nothing otherwise. *)
Theorem update_errors (s : Snake) (x_bounds y_bounds : Z) :
  (coords s = [] → update s x_bounds y_bounds = Raise IndexError)
  ∧ (coords s ≠ [] → x_bounds = 0 ∨ y_bounds = 0 →
     update s x_bounds y_bounds = Raise ZeroDivisionError)
  ∧ (coords s ≠ [] → x_bounds ≠ 0 → y_bounds ≠ 0 →
     ∃ s', update s x_bounds y_bounds = Ok s').
Proof.
  destruct s as [[|h t] d]; cbn [coords]; repeat split; try done.
  - intros _ Hz. unfold update. cbn [coords mapM].
    rewrite (squash_raises h _ _ Hz). reflexivity.
  - intros _ Hx Hy. eexists. apply update_cons; assumption.
Qed.

Lemma update_n_S n s x_bounds y_bounds :
  update_n (S n) s x_bounds y_bounds
  = update s x_bounds y_bounds ≫= λ s', update_n n s' x_bounds y_bounds.
Proof. reflexivity. Qed.

(** X13: [n] updates in a row move the head [n] cells in the current
    direction, up to wrapping: the head afterwards and the old head
    advanced by [n] direction vectors wrap to the same cell.  The direction
    and the length of the body stay as they were. *)
Theorem update_n_head (n : nat) (s : Snake) (x_bounds y_bounds : Z) :
  coords s ≠ [] → 0 < x_bounds → 0 < y_bounds →
  ∃ s' h h', update_n n s x_bounds y_bounds = Ok s'
    ∧ direction s' = direction s
    ∧ length (coords s') = length (coords s)
    ∧ head (coords s) = Some h ∧ head (coords s') = Some h'
    ∧ wrapped x_bounds y_bounds h'
      = wrapped x_bounds y_bounds
          (Point2D_add h
             (mkPoint2D (Z.of_nat n * x (value (direction s)))
                        (Z.of_nat n * y (value (direction s))))).
Proof.
  intros Hne Hx Hy. revert s Hne.
  induction n as [|n IH]; intros [[|h t] d] Hne; try done.
  - exists (mkSnake (h :: t) d), h, h. repeat split.
    unfold Point2D_add, wrapped; simpl. f_equal; f_equal; lia.
  - rewrite update_n_S, update_cons by lia. cbn [mbind result_bind].
    destruct (IH (mkSnake (Point2D_add (wrapped x_bounds y_bounds h) (value d)
                           :: removelast (wrapped x_bounds y_bounds <$> h :: t)) d))
      as (s' & h1 & h' & Hrun & Hdir & Hlen & Hh1 & Hh' & Hw); [done|].
    cbn [coords direction head] in *. injection Hh1 as <-.
    exists s', h, h'. split; [exact Hrun|]. split; [exact Hdir|].
    split.
    { rewrite Hlen. cbn [length].
      rewrite removelast_length, length_fmap. reflexivity. }
    split; [reflexivity|]. split; [exact Hh'|].
    rewrite Hw. unfold wrapped, Point2D_add; cbn [x y].
    f_equal.
    + rewrite <- Z.add_assoc, Z.add_mod_idemp_l by lia. f_equal. lia.
    + rewrite <- Z.add_assoc, Z.add_mod_idemp_l by lia. f_equal. lia.
Qed.

Lemma update_n_head_witness :
  ∃ s' h h', update_n 25 (Snake_init 15 10 DOWN) 30 20 = Ok s'
    ∧ direction s' = DOWN
    ∧ length (coords s') = 1%nat
    ∧ head (coords (Snake_init 15 10 DOWN)) = Some h
    ∧ head (coords s') = Some h'
    ∧ wrapped 30 20 h'
      = wrapped 30 20
          (Point2D_add h (mkPoint2D (Z.of_nat 25 * 0) (Z.of_nat 25 * 1))).
Proof.
  apply (update_n_head 25 (Snake_init 15 10 DOWN) 30 20);
    [discriminate | lia | lia].
Defined.

(** ** Further properties of apple placement *)

Lemma elem_of_grid x_bounds y_bounds p :
  p ∈ grid x_bounds y_bounds ↔ in_bounds x_bounds y_bounds p.
Proof.
  unfold grid, in_bounds. rewrite list_elem_of_bind. split.
  - intros (a & Hb & Ha). apply list_elem_of_bind in Hb as (b & Hp & Hb).
    apply elem_of_range in Ha, Hb.
    apply list_elem_of_singleton in Hp. subst p. simpl. auto.
  - intros [Ha Hb]. destruct p as [a b]; simpl in *.
    exists a. split; [|apply elem_of_range, Ha].
    apply list_elem_of_bind. exists b. split; [|apply elem_of_range, Hb].
    apply list_elem_of_singleton. reflexivity.
Qed.

Lemma NoDup_grid x_bounds y_bounds : NoDup (grid x_bounds y_bounds).
Proof.
  unfold grid. apply NoDup_bind; [| |apply NoDup_seqZ].
  - intros a1 a2 p _ _ (b1 & Hp1 & _)%list_elem_of_bind
      (b2 & Hp2 & _)%list_elem_of_bind.
    apply list_elem_of_singleton in Hp1, Hp2. congruence.
  - intros a _. apply NoDup_bind; [| |apply NoDup_seqZ].
    + intros b1 b2 p _ _ Hp1 Hp2.
      apply list_elem_of_singleton in Hp1, Hp2. congruence.
    + intros b _. apply NoDup_singleton.
Qed.

Lemma length_bind_const {A B} (f : A → list B) (l : list A) (m : nat) :
  (∀ a, length (f a) = m) → length (l ≫= f) = (length l * m)%nat.
Proof.
  intros Hf. induction l as [|a l IH]; [reflexivity|].
  change ((a :: l) ≫= f) with (f a ++ (l ≫= f))%list.
  rewrite length_app, Hf, IH. reflexivity.
Qed.

Lemma length_grid x_bounds y_bounds :
  length (grid x_bounds y_bounds)
  = (Z.to_nat x_bounds * Z.to_nat y_bounds)%nat.
Proof.
  unfold grid, range.
  rewrite (length_bind_const _ _ (Z.to_nat y_bounds)), length_seqZ; [reflexivity|].
  intros a. rewrite (length_bind_const _ _ 1%nat), length_seqZ; [lia|].
  reflexivity.
Qed.

Lemma NoDup_free_cells x_bounds y_bounds (occ : gset Point2D) :
  NoDup (free_cells x_bounds y_bounds occ).
Proof.
  unfold free_cells. apply NoDup_bind; [| |apply NoDup_seqZ].
  - intros a1 a2 p _ _ (b1 & Hp1 & _)%list_elem_of_bind
      (b2 & Hp2 & _)%list_elem_of_bind.
    destruct (decide _); [inversion Hp1|].
    destruct (decide _); [inversion Hp2|].
    apply list_elem_of_singleton in Hp1, Hp2. congruence.
  - intros a _. apply NoDup_bind; [| |apply NoDup_seqZ].
    + intros b1 b2 p _ _ Hp1 Hp2.
      destruct (decide _); [inversion Hp1|].
      destruct (decide _); [inversion Hp2|].
      apply list_elem_of_singleton in Hp1, Hp2. congruence.
    + intros b _. destruct (decide _); [apply NoDup_nil_2 | apply NoDup_singleton].
Qed.

(** X14: the list [free] from which the apple is drawn holds every cell of
    the rectangle that the snake does not occupy, each exactly once, so a
    uniform draw from the list is a uniform draw among the free cells. *)
Theorem free_cells_enumerates (x_bounds y_bounds : Z) (snake : Snake) :
  NoDup (free_cells x_bounds y_bounds (occupied snake))
  ∧ ∀ p, p ∈ free_cells x_bounds y_bounds (occupied snake)
         ↔ in_bounds x_bounds y_bounds p ∧ p ∉ coords snake.
Proof.
  split; [apply NoDup_free_cells|].
  intros p. rewrite elem_of_free_cells. unfold occupied.
  rewrite elem_of_list_to_set. reflexivity.
Qed.

Lemma free_cells_nil x_bounds y_bounds (occ : gset Point2D) :
  free_cells x_bounds y_bounds occ = []
  ↔ ∀ p, in_bounds x_bounds y_bounds p → p ∈ occ.
Proof.
  split.
  - intros Hnil p Hp. destruct (decide (p ∈ occ)) as [|Hfree]; [assumption|].
    assert (Hin : p ∈ free_cells x_bounds y_bounds occ)
      by (apply elem_of_free_cells; auto).
    rewrite Hnil in Hin. inversion Hin.
  - intros Hfull.
    destruct (free_cells x_bounds y_bounds occ) as [|p l] eqn:E; [reflexivity|].
    assert (Hin : p ∈ free_cells x_bounds y_bounds occ) by (rewrite E; left).
    apply elem_of_free_cells in Hin as [Hb Hf]. destruct Hf. apply Hfull, Hb.
Qed.

Lemma choice_not_exit {A} randbelow (l : list A) status :
  choice randbelow l ≠ Raise (SystemExit status).
Proof.
  unfold choice, py_getitem. destruct l as [|a l]; [discriminate|].
  destruct (py_index _ _) as [n|e] eqn:E; cbn.
  - destruct (_ !! n); discriminate.
  - unfold py_index in E.
    repeat (destruct (_ && _) in E; try discriminate).
    injection E as <-. discriminate.
Qed.

(** X15: the win (exit with status 0) is signalled exactly when every cell
    of the rectangle is occupied, whatever the random draw. *)
Theorem win_iff_board_full
    (randbelow : nat → nat) (x_bounds y_bounds : Z) (snake : Snake) :
  (new_apple_location randbelow x_bounds y_bounds snake).2
  = Raise (SystemExit 0)
  ↔ ∀ p, in_bounds x_bounds y_bounds p → p ∈ coords snake.
Proof.
  assert (Hiff : (∀ p, in_bounds x_bounds y_bounds p → p ∈ coords snake)
                 ↔ free_cells x_bounds y_bounds (occupied snake) = []).
  { rewrite free_cells_nil. unfold occupied.
    split; intros H p Hp; specialize (H p Hp);
      apply elem_of_list_to_set in H || apply elem_of_list_to_set; exact H. }
  rewrite Hiff. unfold new_apple_location.
  destruct (free_cells x_bounds y_bounds (occupied snake)) as [|p l]; cbn [snd].
  - split; reflexivity.
  - split; [|discriminate]. intros H. destruct (choice_not_exit _ _ _ H).
Qed.

Lemma placement_when_short
    (randbelow : nat → nat) (x_bounds y_bounds : Z) (snake : Snake) :
  0 < x_bounds → 0 < y_bounds →
  Z.of_nat (length (coords snake)) < x_bounds * y_bounds →
  good_draw randbelow →
  ∃ p, new_apple_location randbelow x_bounds y_bounds snake = ([], Ok p)
       ∧ in_bounds x_bounds y_bounds p ∧ p ∉ coords snake.
Proof.
  intros Hx Hy Hshort Hrand.
  assert (Hne : free_cells x_bounds y_bounds (occupied snake) ≠ []).
  { intros Hnil. rewrite free_cells_nil in Hnil.
    assert (Hsub : grid x_bounds y_bounds ⊆+ coords snake).
    { apply NoDup_submseteq; [apply NoDup_grid|].
      intros p Hp%elem_of_grid. apply Hnil in Hp.
      unfold occupied in Hp. apply elem_of_list_to_set in Hp. exact Hp. }
    apply submseteq_length in Hsub. rewrite length_grid in Hsub. nia. }
  destruct (choice_elem_of randbelow _ Hrand Hne) as (p & Hp & Hin).
  apply elem_of_free_cells in Hin as [Hb Hf].
  exists p. split; [|split; [exact Hb|]].
  - unfold new_apple_location.
    destruct (free_cells x_bounds y_bounds (occupied snake)); [done|].
    rewrite Hp. reflexivity.
  - intros Hc. apply Hf. unfold occupied. apply elem_of_list_to_set, Hc.
Qed.

(** X16: while the body has fewer segments than the board has cells, an
    apple is always placed: no win is signalled and nothing is printed. *)
Theorem short_snake_gets_apple
    (randbelow : nat → nat) (x_bounds y_bounds : Z) (snake : Snake) :
  0 < x_bounds → 0 < y_bounds →
  Z.of_nat (length (coords snake)) < x_bounds * y_bounds →
  good_draw randbelow →
  ∃ p, new_apple_location randbelow x_bounds y_bounds snake = ([], Ok p)
       ∧ in_bounds x_bounds y_bounds p ∧ p ∉ coords snake.
Proof. apply placement_when_short. Qed.

Lemma short_snake_gets_apple_witness :
  ∃ p, new_apple_location (λ n, Nat.pred n) 30 20 (Snake_init 15 10 DOWN)
       = ([], Ok p)
       ∧ in_bounds 30 20 p ∧ p ∉ coords (Snake_init 15 10 DOWN).
Proof.
  apply (short_snake_gets_apple (λ n, Nat.pred n) 30 20 (Snake_init 15 10 DOWN));
    [lia | lia | simpl; lia | intros n Hn; lia].
Defined.

(** X17: on a board without cells (a bound that is zero or negative) the
    placement signals the win at once, whatever the snake. *)
Theorem empty_board_wins
    (randbelow : nat → nat) (x_bounds y_bounds : Z) (snake : Snake) :
  x_bounds ≤ 0 ∨ y_bounds ≤ 0 →
  new_apple_location randbelow x_bounds y_bounds snake
  = ([Print "You won! No more space left."], Raise (SystemExit 0)).
Proof.
  intros Hempty. unfold new_apple_location.
  assert (Hnil : free_cells x_bounds y_bounds (occupied snake) = []).
  { apply free_cells_nil. intros p [Hpx Hpy]. lia. }
  rewrite Hnil. reflexivity.
Qed.

Lemma empty_board_wins_witness :
  new_apple_location (λ _, 0%nat) 0 20 (Snake_init 15 10 DOWN)
  = ([Print "You won! No more space left."], Raise (SystemExit 0)).
Proof.
  apply (empty_board_wins (λ _, 0%nat) 0 20 (Snake_init 15 10 DOWN)).
  left. lia.
Defined.

(** ** Further properties of the renderer *)

Lemma py_index_nonneg len i :
  0 ≤ i < Z.of_nat len → py_index len i = Ok (Z.to_nat i).
Proof.
  intros Hi. unfold py_index.
  destruct (Z.leb_spec 0 i), (Z.ltb_spec i (Z.of_nat len)); try lia.
  reflexivity.
Qed.

Lemma py_index_neg len i :
  0 ≤ i < Z.of_nat len → py_index len (i - Z.of_nat len) = Ok (Z.to_nat i).
Proof.
  intros Hi. unfold py_index.
  destruct (Z.leb_spec 0 (i - Z.of_nat len)); [lia|]. cbn [andb].
  destruct (Z.leb_spec (- Z.of_nat len) (i - Z.of_nat len)),
    (Z.ltb_spec (i - Z.of_nat len) 0); try lia.
  cbn [andb]. do 2 f_equal. lia.
Qed.

Lemma py_index_out len i :
  ¬ (- Z.of_nat len ≤ i < Z.of_nat len) → py_index len i = Raise IndexError.
Proof.
  intros Hi. unfold py_index.
  destruct (Z.leb_spec 0 i), (Z.ltb_spec i (Z.of_nat len)); cbn [andb];
    try lia;
    destruct (Z.leb_spec (- Z.of_nat len) i), (Z.ltb_spec i 0); cbn [andb];
    try lia; reflexivity.
Qed.

Lemma board_set_out w h board i j v :
  board_ok w h board →
  ¬ (- Z.of_nat w ≤ j < Z.of_nat w ∧ - Z.of_nat h ≤ i < Z.of_nat h) →
  board_set board i j v = Raise IndexError.
Proof.
  intros [Hlen Hrows] Hout. unfold board_set, py_getitem, py_setitem.
  rewrite Hlen.
  destruct (decide (- Z.of_nat h ≤ i < Z.of_nat h)) as [Hi|Hi].
  - destruct (py_index_in_range h i Hi) as [n Hn]. rewrite Hn.
    cbn [mbind result_bind].
    pose proof (py_index_lt _ _ _ Hn) as Hlt. rewrite <- Hlen in Hlt.
    apply lookup_lt_is_Some in Hlt as [row Hrow]. rewrite Hrow.
    pose proof (proj1 (Forall_lookup _ _) Hrows n row Hrow) as [Hw _].
    cbn [mbind result_bind]. rewrite Hw, py_index_out by lia. reflexivity.
  - rewrite py_index_out by assumption. reflexivity.
Qed.

(** X18: [plot] always clears the screen first; it raises [IndexError]
    exactly when the apple does not index the board (a coordinate outside
    [-bound, bound)), and it raises nothing else. *)
Theorem plot_raises_iff_apple_outside
    (x_bounds y_bounds : Z) (snake : Snake) (apple : Point2D) :
  (plot x_bounds y_bounds snake apple).1 = [Clear]
  ∧ ((plot x_bounds y_bounds snake apple).2 = Raise IndexError
     ↔ ¬ (- x_bounds ≤ x apple < x_bounds ∧ - y_bounds ≤ y apple < y_bounds))
  ∧ ∀ e, (plot x_bounds y_bounds snake apple).2 = Raise e → e = IndexError.
Proof.
  split; [reflexivity|]. unfold plot. cbn [snd].
  pose proof (blank_board_ok x_bounds y_bounds) as Hok.
  destruct (decide (- x_bounds ≤ x apple < x_bounds
                    ∧ - y_bounds ≤ y apple < y_bounds)) as [Hin|Hout].
  - destruct (board_set_ok _ _ _ (y apple) (x apple) (RED +:+ "A" +:+ RESET)
                Hok) as (b1 & -> & Hok1);
      [right; left; reflexivity | lia | lia |].
    cbn [mbind result_bind].
    destruct (plot_points_ok x_bounds y_bounds (coords snake) b1 Hok1)
      as (b2 & -> & _).
    cbn [mbind result_bind]. split; [|discriminate].
    split; [discriminate | intros H; destruct (H Hin)].
  - rewrite (board_set_out _ _ _ _ _ _ Hok) by lia.
    cbn [mbind result_bind]. split; [|intros e [= <-]; reflexivity].
    split; auto.
Qed.

Lemma board_set_shift w h board i j v :
  board_ok w h board → 0 ≤ i < Z.of_nat h → 0 ≤ j < Z.of_nat w →
  board_set board (i - Z.of_nat h) (j - Z.of_nat w) v = board_set board i j v.
Proof.
  intros [Hlen Hrows] Hi Hj. unfold board_set, py_getitem, py_setitem.
  rewrite Hlen, py_index_neg, py_index_nonneg by assumption.
  cbn [mbind result_bind].
  destruct (board !! Z.to_nat i) as [row|] eqn:Hrow; [|reflexivity].
  pose proof (proj1 (Forall_lookup _ _) Hrows _ row Hrow) as [Hw _].
  cbn [mbind result_bind].
  rewrite Hw, py_index_neg, py_index_nonneg by assumption.
  reflexivity.
Qed.

(** X19: an apple given by negative subscripts is drawn like the cell they
    count back to from the far edges: (x - x_bounds, y - y_bounds) renders
    as (x, y). *)
Theorem plot_negative_apple
    (x_bounds y_bounds : Z) (snake : Snake) (apple : Point2D) :
  in_bounds x_bounds y_bounds apple →
  plot x_bounds y_bounds snake
       (mkPoint2D (x apple - x_bounds) (y apple - y_bounds))
  = plot x_bounds y_bounds snake apple.
Proof.
  intros [Hx Hy]. unfold plot. cbn [x y]. f_equal.
  pose proof (blank_board_ok x_bounds y_bounds) as Hok.
  replace (y apple - y_bounds) with (y apple - Z.of_nat (Z.to_nat y_bounds))
    by lia.
  replace (x apple - x_bounds) with (x apple - Z.of_nat (Z.to_nat x_bounds))
    by lia.
  rewrite (board_set_shift _ _ _ _ _ _ Hok) by lia. reflexivity.
Qed.

Lemma plot_negative_apple_witness :
  plot 3 2 (Snake_init 0 0 DOWN) (mkPoint2D (2 - 3) (1 - 2))
  = plot 3 2 (Snake_init 0 0 DOWN) (mkPoint2D 2 1).
Proof.
  apply (plot_negative_apple 3 2 (Snake_init 0 0 DOWN) (mkPoint2D 2 1)).
  unfold in_bounds; simpl; lia.
Defined.

Lemma plot_point_guard x_bounds y_bounds board p :
  plot_point x_bounds y_bounds board p
  = if decide (in_bounds x_bounds y_bounds p)
    then board_set board (y p) (x p) (GREEN +:+ "S" +:+ RESET)
    else Ok board.
Proof.
  unfold plot_point, in_bounds.
  destruct (Z.leb_spec 0 (x p)), (Z.ltb_spec (x p) x_bounds),
    (Z.leb_spec 0 (y p)), (Z.ltb_spec (y p) y_bounds); cbn [andb];
    (rewrite decide_True by lia) || (rewrite decide_False by lia);
    reflexivity.
Qed.

Lemma plot_points_filter x_bounds y_bounds points : ∀ board,
  plot_points x_bounds y_bounds board
    (filter (in_bounds x_bounds y_bounds) points)
  = plot_points x_bounds y_bounds board points.
Proof.
  induction points as [|p rest IH]; intros board; [reflexivity|].
  rewrite filter_cons. cbn [plot_points].
  rewrite (plot_point_guard _ _ board p).
  destruct (decide (in_bounds x_bounds y_bounds p)) as [Hin|Hout].
  - cbn [plot_points]. rewrite plot_point_guard, decide_True by assumption.
    destruct (board_set _ _ _ _) as [board'|e]; cbn [mbind result_bind];
      [apply IH | reflexivity].
  - cbn [mbind result_bind]. apply IH.
Qed.

(** X20: segments outside the rectangle do not show: the frame is the one
    of the snake without them. *)
Theorem plot_skips_outside
    (x_bounds y_bounds : Z) (snake : Snake) (apple : Point2D) :
  plot x_bounds y_bounds
       (mkSnake (filter (in_bounds x_bounds y_bounds) (coords snake))
                (direction snake)) apple
  = plot x_bounds y_bounds snake apple.
Proof.
  unfold plot. cbn [coords]. f_equal.
  destruct (board_set _ _ _ _) as [board|e]; cbn [mbind result_bind];
    [|reflexivity].
  rewrite plot_points_filter. reflexivity.
Qed.

Lemma board_set_cell w h board (i j : nat) v :
  board_ok w h board → is_cell v → (i < h)%nat → (j < w)%nat →
  ∃ board', board_set board (Z.of_nat i) (Z.of_nat j) v = Ok board'
    ∧ board_ok w h board'
    ∧ ∀ i' j', cell_at board' i' j'
               = if decide (i' = i ∧ j' = j) then Some v
                 else cell_at board i' j'.
Proof.
  intros Hok Hv Hi Hj.
  destruct (board_set_ok w h board (Z.of_nat i) (Z.of_nat j) v Hok Hv)
    as (board' & Hset & Hok'); [lia | lia |].
  exists board'. split; [exact Hset|]. split; [exact Hok'|].
  destruct Hok as [Hlen Hrows].
  unfold board_set, py_getitem, py_setitem in Hset.
  rewrite Hlen, py_index_nonneg, Nat2Z.id in Hset by lia.
  cbn [mbind result_bind] in Hset.
  destruct (board !! i) as [row|] eqn:Hrow; [|discriminate].
  pose proof (proj1 (Forall_lookup _ _) Hrows _ row Hrow) as [Hw _].
  cbn [mbind result_bind] in Hset.
  rewrite Hw, py_index_nonneg, Nat2Z.id in Hset by lia.
  cbn [mbind result_bind] in Hset. injection Hset as <-.
  intros i' j'. unfold cell_at.
  destruct (decide (i' = i)) as [->|Hne].
  - rewrite list_lookup_insert_eq by lia. rewrite Hrow. cbn.
    destruct (decide (j' = j)) as [->|Hne'].
    + rewrite decide_True by auto. apply list_lookup_insert_eq. lia.
    + rewrite decide_False by (intros [_ ?]; done).
      apply list_lookup_insert_ne. congruence.
  - rewrite decide_False by (intros [? _]; done).
    rewrite list_lookup_insert_ne by congruence. reflexivity.
Qed.

Lemma plot_points_cells x_bounds y_bounds points : ∀ board,
  board_ok (Z.to_nat x_bounds) (Z.to_nat y_bounds) board →
  ∃ board', plot_points x_bounds y_bounds board points = Ok board'
    ∧ ∀ a b, 0 ≤ a < x_bounds → 0 ≤ b < y_bounds →
        cell_at board' (Z.to_nat b) (Z.to_nat a)
        = if decide (mkPoint2D a b ∈ points)
          then Some (GREEN +:+ "S" +:+ RESET)
          else cell_at board (Z.to_nat b) (Z.to_nat a).
Proof.
  induction points as [|p rest IH]; intros board Hok.
  - exists board. split; [reflexivity|]. intros a b _ _.
    rewrite decide_False; [reflexivity | apply not_elem_of_nil].
  - cbn [plot_points]. rewrite plot_point_guard.
    destruct (decide (in_bounds x_bounds y_bounds p)) as [[Hpx Hpy]|Hout].
    + destruct (board_set_cell _ _ board (Z.to_nat (y p)) (Z.to_nat (x p))
                  (GREEN +:+ "S" +:+ RESET) Hok) as (b1 & Hset & Hok1 & Hcell);
        [right; right; reflexivity | lia | lia |].
      rewrite !Z2Nat.id in Hset by lia. rewrite Hset.
      cbn [mbind result_bind].
      destruct (IH b1 Hok1) as (b2 & -> & Hcell2).
      exists b2. split; [reflexivity|]. intros a b Ha Hb.
      rewrite (Hcell2 a b Ha Hb), Hcell.
      destruct (decide (mkPoint2D a b ∈ rest)) as [Hin|Hnin].
      * rewrite decide_True by (right; exact Hin). reflexivity.
      * destruct (decide (mkPoint2D a b = p)) as [<-|Hne].
        -- cbn [x y]. rewrite decide_True by auto.
           rewrite decide_True by left. reflexivity.
        -- rewrite decide_False.
           ++ rewrite decide_False; [reflexivity|].
              intros [?|?]%elem_of_cons; done.
           ++ intros [Hb' Ha']. apply Hne. destruct p as [px py].
              cbn [x y] in *. f_equal; lia.
    + cbn [mbind result_bind].
      destruct (IH board Hok) as (b2 & -> & Hcell2).
      exists b2. split; [reflexivity|]. intros a b Ha Hb.
      rewrite (Hcell2 a b Ha Hb).
      destruct (decide (mkPoint2D a b ∈ rest)) as [Hin|Hnin].
      * rewrite decide_True by (right; exact Hin). reflexivity.
      * rewrite decide_False; [reflexivity|].
        intros [<-|?]%elem_of_cons; [|done].
        apply Hout. split; assumption.
Qed.

Lemma blank_board_cell x_bounds y_bounds a b :
  0 ≤ a < x_bounds → 0 ≤ b < y_bounds →
  cell_at ((λ _, (λ _, " ") <$> range x_bounds) <$> range y_bounds)
          (Z.to_nat b) (Z.to_nat a) = Some " ".
Proof.
  intros Ha Hb. unfold cell_at, range. rewrite list_lookup_fmap.
  destruct (lookup_lt_is_Some_2 (seqZ 0 y_bounds) (Z.to_nat b)) as [b' ->];
    [rewrite length_seqZ; lia|].
  cbn. rewrite list_lookup_fmap.
  destruct (lookup_lt_is_Some_2 (seqZ 0 x_bounds) (Z.to_nat a)) as [a' ->];
    [rewrite length_seqZ; lia|].
  reflexivity.
Qed.

(** X21: what the frame shows.  With the apple on a cell of the board, the
    cell in column [a] of row [b] holds the green S when (a, b) is a
    segment of the snake, else the red A when (a, b) is the apple, else a
    blank; the snake is drawn over the apple. *)
Theorem plot_cells
    (x_bounds y_bounds : Z) (snake : Snake) (apple : Point2D) :
  in_bounds x_bounds y_bounds apple →
  ∃ board,
    plot x_bounds y_bounds snake apple
    = ([Clear], Ok ([horizontal_border x_bounds] ++ (render_row <$> board)
                    ++ [horizontal_border x_bounds])%list)
    ∧ ∀ a b, 0 ≤ a < x_bounds → 0 ≤ b < y_bounds →
        cell_at board (Z.to_nat b) (Z.to_nat a)
        = Some (if decide (mkPoint2D a b ∈ coords snake)
                then GREEN +:+ "S" +:+ RESET
                else if decide (mkPoint2D a b = apple)
                     then RED +:+ "A" +:+ RESET
                     else " ").
Proof.
  intros [Hax Hay]. unfold plot.
  destruct (board_set_cell _ _ _ (Z.to_nat (y apple)) (Z.to_nat (x apple))
              (RED +:+ "A" +:+ RESET) (blank_board_ok x_bounds y_bounds))
    as (b1 & Hset & Hok1 & Hcell1); [right; left; reflexivity | lia | lia |].
  rewrite !Z2Nat.id in Hset by lia. rewrite Hset. cbn [mbind result_bind].
  destruct (plot_points_cells x_bounds y_bounds (coords snake) b1 Hok1)
    as (b2 & -> & Hcell2).
  cbn [mbind result_bind mret result_ret]. exists b2.
  split; [reflexivity|]. intros a b Ha Hb.
  rewrite (Hcell2 a b Ha Hb).
  destruct (decide (mkPoint2D a b ∈ coords snake)); [reflexivity|].
  rewrite Hcell1.
  destruct (decide (mkPoint2D a b = apple)) as [<-|Hne].
  - cbn [x y]. rewrite decide_True by auto. reflexivity.
  - rewrite decide_False.
    + apply blank_board_cell; assumption.
    + intros [Hb' Ha']. apply Hne. destruct apple as [px py].
      cbn [x y] in *. f_equal; lia.
Qed.

Lemma plot_cells_witness :
  ∃ board,
    plot 3 2 (mkSnake [mkPoint2D 0 0; mkPoint2D 1 0] LEFT) (mkPoint2D 2 1)
    = ([Clear], Ok ([horizontal_border 3] ++ (render_row <$> board)
                    ++ [horizontal_border 3])%list)
    ∧ ∀ a b, 0 ≤ a < 3 → 0 ≤ b < 2 →
        cell_at board (Z.to_nat b) (Z.to_nat a)
        = Some (if decide (mkPoint2D a b ∈ [mkPoint2D 0 0; mkPoint2D 1 0])
                then GREEN +:+ "S" +:+ RESET
                else if decide (mkPoint2D a b = mkPoint2D 2 1)
                     then RED +:+ "A" +:+ RESET
                     else " ").
Proof.
  apply (plot_cells 3 2 (mkSnake [mkPoint2D 0 0; mkPoint2D 1 0] LEFT)
           (mkPoint2D 2 1)).
  unfold in_bounds; simpl; lia.
Defined.

(** ** Properties of the main loop *)

Lemma io_bind_ok {A B} (out : list output) (a : A) (f : A → io B) :
  mbind (M := io) f (out, Ok a) = ((out ++ (f a).1)%list, (f a).2).
Proof. reflexivity. Qed.

Lemma io_bind_raise {A B} (out : list output) (e : exn) (f : A → io B) :
  mbind (M := io) f (out, Raise e) = (out, Raise e).
Proof. reflexivity. Qed.

Lemma io_bind_snd {A B} (m : io A) (f : A → io B) :
  (m ≫= f).2 = match m.2 with Ok a => (f a).2 | Raise e => Raise e end.
Proof. destruct m as [out [a|e]]; reflexivity. Qed.

Lemma plot_ok x_bounds y_bounds snake apple :
  in_bounds x_bounds y_bounds apple →
  ∃ lines, plot x_bounds y_bounds snake apple = ([Clear], Ok lines).
Proof.
  intros [Hx Hy]. unfold plot.
  destruct (board_set_ok _ _ _ (y apple) (x apple) (RED +:+ "A" +:+ RESET)
              (blank_board_ok x_bounds y_bounds)) as (b1 & -> & Hok1);
    [right; left; reflexivity | lia | lia |].
  cbn [mbind result_bind].
  destruct (plot_points_ok x_bounds y_bounds (coords snake) b1 Hok1)
    as (b2 & -> & _).
  eexists. reflexivity.
Qed.

Lemma new_apple_location_cases randbelow x_bounds y_bounds snake :
  good_draw randbelow →
  new_apple_location randbelow x_bounds y_bounds snake
  = ([Print "You won! No more space left."], Raise (SystemExit 0))
  ∨ ∃ p, new_apple_location randbelow x_bounds y_bounds snake = ([], Ok p)
         ∧ in_bounds x_bounds y_bounds p ∧ p ∉ coords snake.
Proof.
  intros Hrand. unfold new_apple_location.
  destruct (free_cells x_bounds y_bounds (occupied snake)) as [|q l] eqn:E;
    [left; reflexivity | right].
  destruct (choice_elem_of randbelow (q :: l) Hrand) as (p & Hp & Hin);
    [done|].
  rewrite <- E in Hin. apply elem_of_free_cells in Hin as [Hb Hf].
  exists p. rewrite Hp. split; [reflexivity|]. split; [exact Hb|].
  intros Hc. apply Hf. unfold occupied. apply elem_of_list_to_set, Hc.
Qed.

Lemma update_ok_length s x_bounds y_bounds :
  coords s ≠ [] → x_bounds ≠ 0 → y_bounds ≠ 0 →
  ∃ s', update s x_bounds y_bounds = Ok s'
        ∧ length (coords s') = length (coords s).
Proof.
  intros Hne Hx Hy. destruct s as [[|h t] d]; [done|].
  eexists. split; [apply update_cons; assumption|].
  cbn [coords length]. rewrite removelast_length, length_fmap. reflexivity.
Qed.

Lemma read_key_fields key g :
  coords (snake (read_key key g)) = coords (snake g)
  ∧ apple (read_key key g) = apple g
  ∧ score (read_key key g) = score g.
Proof.
  unfold read_key. destruct key as [k|]; [|done].
  destruct (truthy (Some k)); [|done].
  cbn [snake apple score]. rewrite move_coords. done.
Qed.

Lemma Point2D_eq_false p q : Point2D_eq p q = false ↔ p ≠ q.
Proof.
  rewrite <- Point2D_eq_true. destruct (Point2D_eq p q); split; congruence.
Qed.

Lemma eat_eq X Y rb h t d a run sc :
  eat X Y rb (mkGame (mkSnake (h :: t) d) a run sc)
  = if Point2D_eq h a
    then
      let grown := mkSnake (Point2D_add h (value d) :: h :: t) d in
      match new_apple_location rb X Y grown with
      | (out, Ok p) => (Bell :: (Term <$> out), Ok (mkGame grown p run (sc + 1)))
      | (out, Raise e) => (Bell :: (Term <$> out), Raise e)
      end
    else ([], Ok (mkGame (mkSnake (h :: t) d) a run sc)).
Proof.
  unfold eat. cbn [snake coords apple is_running score].
  change (py_getitem (h :: t) 0) with (Ok h). rewrite grow_cons.
  destruct (Point2D_eq h a) eqn:E.
  - unfold lift, emit, term. rewrite io_bind_ok. cbn [fst snd app].
    rewrite E. rewrite !io_bind_ok. cbn [fst snd app].
    destruct (new_apple_location _ _ _ _) as [out [p|e]]; cbn [fst snd].
    + rewrite io_bind_ok. cbn. rewrite app_nil_r. reflexivity.
    + rewrite io_bind_raise. reflexivity.
  - unfold lift. rewrite io_bind_ok. cbn [fst snd app]. rewrite E. reflexivity.
Qed.

Lemma eat_cases X Y rb h t d a run sc :
  good_draw rb →
  let g := mkGame (mkSnake (h :: t) d) a run sc in
  let grown := mkSnake (Point2D_add h (value d) :: h :: t) d in
  (h ≠ a ∧ eat X Y rb g = ([], Ok g))
  ∨ (h = a
     ∧ eat X Y rb g
       = ([Bell; Term (Print "You won! No more space left.")],
          Raise (SystemExit 0)))
  ∨ (h = a
     ∧ ∃ p, in_bounds X Y p ∧ (p ∉ coords grown)
            ∧ eat X Y rb g = ([Bell], Ok (mkGame grown p run (sc + 1)))).
Proof.
  intros Hrand g grown. unfold g. rewrite eat_eq. fold grown.
  destruct (Point2D_eq h a) eqn:E.
  - apply Point2D_eq_true in E. right. cbn zeta.
    destruct (new_apple_location_cases rb X Y grown Hrand)
      as [Hwin|(p & Hp & Hb & Hf)].
    + left. split; [exact E|]. rewrite Hwin. reflexivity.
    + right. split; [exact E|]. exists p. split; [exact Hb|].
      split; [exact Hf|]. rewrite Hp. reflexivity.
  - apply Point2D_eq_false in E. left. split; [exact E | reflexivity].
Qed.

Lemma read_key_running key g :
  is_running (read_key key g)
  = match key with
    | Some k =>
        if truthy key then negb (String.eqb (lower (strip k)) "q")
        else is_running g
    | None => is_running g
    end.
Proof.
  unfold read_key. destruct key as [k|]; [|reflexivity].
  destruct (truthy (Some k)); [|reflexivity].
  cbn [is_running]. apply move_flag.
Qed.

(** What one pass computes, once the frame is known. *)
Lemma loop_body_eq X Y rb key h t d a run sc lines :
  let g := mkGame (mkSnake (h :: t) d) a run sc in
  let frame := [Term Clear; Term (Print (join (String "010" "") lines))] in
  plot X Y (mkSnake (h :: t) d) a = ([Clear], Ok lines) →
  loop_body X Y rb key g
  = if py_in h t then (frame, Ok (Break g))
    else match eat X Y rb g with
         | (out, Ok g1) =>
             match update (snake (read_key key g1)) X Y with
             | Ok s =>
                 ((frame ++ out ++ [Sleep])%list,
                  Ok (Continue (mkGame s (apple (read_key key g1))
                                  (is_running (read_key key g1))
                                  (score (read_key key g1)))))
             | Raise e => ((frame ++ out)%list, Raise e)
             end
         | (out, Raise e) => ((frame ++ out)%list, Raise e)
         end.
Proof.
  intros g frame Hplot. unfold loop_body. cbn [snake apple g].
  rewrite Hplot, is_dead_cons. unfold term, emit, lift. cbn [fst snd fmap list_fmap].
  rewrite !io_bind_ok. cbn [fst snd app].
  destruct (py_in h t); [reflexivity|].
  fold g. destruct (eat X Y rb g) as [out [g1|e]].
  - rewrite io_bind_ok. cbn [fst snd].
    destruct (update (snake (read_key key g1)) X Y) as [s|e].
    + rewrite !io_bind_ok. cbn [fst snd mret io_ret app]. reflexivity.
    + rewrite io_bind_raise. cbn [fst snd app]. rewrite ?app_nil_r.
      reflexivity.
  - rewrite io_bind_raise. reflexivity.
Qed.

(** The outcomes of one pass from variables that satisfy [game_ok]. *)
Lemma loop_body_step X Y rb key g :
  0 < X → 0 < Y → good_draw rb → game_ok X Y g →
  ∃ lines, plot X Y (snake g) (apple g) = ([Clear], Ok lines) ∧
  let frame := [Term Clear; Term (Print (join (String "010" "") lines))] in
  (is_dead (snake g) = Ok true ∧ loop_body X Y rb key g = (frame, Ok (Break g)))
  ∨ (is_dead (snake g) = Ok false
     ∧ head (coords (snake g)) = Some (apple g)
     ∧ loop_body X Y rb key g
       = ((frame ++ [Bell; Term (Print "You won! No more space left.")])%list,
          Raise (SystemExit 0)))
  ∨ (is_dead (snake g) = Ok false
     ∧ head (coords (snake g)) ≠ Some (apple g)
     ∧ ∃ g', loop_body X Y rb key g = ((frame ++ [Sleep])%list, Ok (Continue g'))
         ∧ game_ok X Y g'
         ∧ update (snake (read_key key g)) X Y = Ok (snake g')
         ∧ is_running g' = is_running (read_key key g)
         ∧ apple g' = apple g ∧ score g' = score g
         ∧ length (coords (snake g')) = length (coords (snake g)))
  ∨ (is_dead (snake g) = Ok false
     ∧ head (coords (snake g)) = Some (apple g)
     ∧ ∃ g', loop_body X Y rb key g
             = ((frame ++ [Bell; Sleep])%list, Ok (Continue g'))
         ∧ game_ok X Y g'
         ∧ is_running g' = is_running (read_key key g)
         ∧ (apple g' ∉ coords (snake g)) ∧ score g' = score g + 1
         ∧ length (coords (snake g')) = S (length (coords (snake g)))).
Proof.
  intros HX HY Hrand [Hne Hap].
  destruct g as [[[|h t] d] a run sc]; [done|]. cbn [snake apple coords] in *.
  destruct (plot_ok X Y (mkSnake (h :: t) d) a Hap) as [lines Hplot].
  exists lines. split; [exact Hplot|]. cbn zeta.
  rewrite (loop_body_eq X Y rb key h t d a run sc lines Hplot).
  rewrite is_dead_cons. cbn [head is_running score].
  destruct (py_in h t); [left; split; reflexivity | right].
  destruct (eat_cases X Y rb h t d a run sc Hrand)
    as [[Hha ->]|[[Hha ->]|[Hha (p & Hpb & Hpf & ->)]]].
  - right; left. split; [reflexivity|]. split; [congruence|].
    set (g := mkGame _ a run sc).
    destruct (read_key_fields key g) as (Hc & Ha & Hs).
    destruct (update_ok_length (snake (read_key key g)) X Y)
      as (s' & Hup & Hlen); [rewrite Hc; done | lia | lia |].
    rewrite Hup, Hc in *. cbn [snake coords length] in Hlen.
    assert (Hne' : coords s' ≠ [])
      by (intros Hnil; rewrite Hnil in Hlen; discriminate Hlen).
    eexists. split; [reflexivity|].
    unfold game_ok. cbn [snake apple is_running score coords length].
    rewrite Ha, Hs. subst g. cbn [snake apple score coords length] in *.
    unfold in_bounds in *.
    repeat split; try reflexivity; try assumption; lia.
  - left. subst a. repeat split; reflexivity.
  - right; right. subst a. split; [reflexivity|]. split; [reflexivity|].
    set (g1 := mkGame _ p run (sc + 1)).
    destruct (read_key_fields key g1) as (Hc & Ha & Hs).
    destruct (update_ok_length (snake (read_key key g1)) X Y)
      as (s' & Hup & Hlen); [rewrite Hc; done | lia | lia |].
    rewrite Hup, Hc in *. cbn [snake coords length] in Hlen.
    assert (Hne' : coords s' ≠ [])
      by (intros Hnil; rewrite Hnil in Hlen; discriminate Hlen).
    eexists. split; [reflexivity|].
    unfold game_ok. cbn [snake apple is_running score coords length].
    rewrite Ha, Hs, !read_key_running. subst g1.
    cbn [snake apple score coords length is_running] in *.
    unfold in_bounds in *.
    repeat split; try reflexivity; try assumption; try lia.
    intros Hin. apply Hpf. right. exact Hin.
Qed.

(** X22: one pass of the loop, started with a snake that has a body and an
    apple on the board, either breaks on death, or exits with status 0 (the
    win), or reaches its end with variables of which the same is true; it
    raises no [IndexError] and no [ZeroDivisionError]. *)
Theorem loop_body_safe (X Y : Z) (rb : nat → nat) (key : option string)
    (g : Game) :
  0 < X → 0 < Y → good_draw rb → game_ok X Y g →
  (loop_body X Y rb key g).2 = Ok (Break g)
  ∨ (loop_body X Y rb key g).2 = Raise (SystemExit 0)
  ∨ ∃ g', (loop_body X Y rb key g).2 = Ok (Continue g') ∧ game_ok X Y g'.
Proof.
  intros HX HY Hrand Hok.
  destruct (loop_body_step X Y rb key g HX HY Hrand Hok)
    as (lines & _ & [(_ & ->)|[(_ & _ & ->)|[(_ & _ & g' & -> & Hok' & _)
                                            |(_ & _ & g' & -> & Hok' & _)]]]).
  - left. reflexivity.
  - right; left. reflexivity.
  - right; right. exists g'. split; [reflexivity | exact Hok'].
  - right; right. exists g'. split; [reflexivity | exact Hok'].
Qed.

Lemma loop_body_safe_witness :
  (loop_body 30 20 (λ _, 0%nat) None
     (mkGame (Snake_init 15 10 DOWN) (mkPoint2D 0 0) true 0)).2
  = Ok (Break (mkGame (Snake_init 15 10 DOWN) (mkPoint2D 0 0) true 0))
  ∨ (loop_body 30 20 (λ _, 0%nat) None
       (mkGame (Snake_init 15 10 DOWN) (mkPoint2D 0 0) true 0)).2
    = Raise (SystemExit 0)
  ∨ ∃ g', (loop_body 30 20 (λ _, 0%nat) None
             (mkGame (Snake_init 15 10 DOWN) (mkPoint2D 0 0) true 0)).2
          = Ok (Continue g') ∧ game_ok 30 20 g'.
Proof.
  apply (loop_body_safe 30 20 (λ _, 0%nat) None
           (mkGame (Snake_init 15 10 DOWN) (mkPoint2D 0 0) true 0));
    [lia | lia | intros n Hn; exact Hn |].
  split; [discriminate | unfold in_bounds; simpl; lia].
Defined.

(** X23: a pass that reaches its end has eaten exactly when the head was on
    the apple.  Then the score and the length of the body are both one
    higher and the new apple is a cell of the board off the old body;
    otherwise score, length and apple are as before. *)
Theorem loop_body_accounting (X Y : Z) (rb : nat → nat)
    (key : option string) (g g' : Game) :
  0 < X → 0 < Y → good_draw rb → game_ok X Y g →
  (loop_body X Y rb key g).2 = Ok (Continue g') →
  (head (coords (snake g)) = Some (apple g)
   ∧ score g' = score g + 1
   ∧ length (coords (snake g')) = S (length (coords (snake g)))
   ∧ in_bounds X Y (apple g') ∧ apple g' ∉ coords (snake g))
  ∨ (head (coords (snake g)) ≠ Some (apple g)
     ∧ score g' = score g
     ∧ length (coords (snake g')) = length (coords (snake g))
     ∧ apple g' = apple g).
Proof.
  intros HX HY Hrand Hok.
  destruct (loop_body_step X Y rb key g HX HY Hrand Hok)
    as (lines & _ & [(_ & ->)|[(_ & _ & ->)|[(_ & Hh & g1 & -> & Hok' & H)
                                            |(_ & Hh & g1 & -> & Hok' & H)]]]);
    cbn [snd]; intros [= <-]; try discriminate.
  - right. destruct H as (_ & _ & Ha & Hs & Hl). auto.
  - left. destruct H as (_ & Ha & Hs & Hl). destruct Hok' as [_ Hb]. auto.
Qed.

Lemma loop_body_accounting_witness :
  (head (coords (Snake_init 1 1 DOWN)) = Some (mkPoint2D 1 1)
   ∧ 1 = 0 + 1
   ∧ length [mkPoint2D 1 3; mkPoint2D 1 2]
     = S (length (coords (Snake_init 1 1 DOWN)))
   ∧ in_bounds 3 3 (mkPoint2D 0 0)
   ∧ mkPoint2D 0 0 ∉ coords (Snake_init 1 1 DOWN))
  ∨ (head (coords (Snake_init 1 1 DOWN)) ≠ Some (mkPoint2D 1 1)
     ∧ 1 = 0
     ∧ length [mkPoint2D 1 3; mkPoint2D 1 2]
       = length (coords (Snake_init 1 1 DOWN))
     ∧ mkPoint2D 0 0 = mkPoint2D 1 1).
Proof.
  apply (loop_body_accounting 3 3 (λ _, 0%nat) None
           (mkGame (Snake_init 1 1 DOWN) (mkPoint2D 1 1) true 0)
           (mkGame (mkSnake [mkPoint2D 1 3; mkPoint2D 1 2] DOWN)
                   (mkPoint2D 0 0) true 1));
    [lia | lia | intros n Hn; exact Hn | | vm_compute; reflexivity].
  split; [discriminate | unfold in_bounds; simpl; lia].
Defined.

(** X24: when the snake is dead at the start of a pass, the pass draws the
    frame and breaks: no key is read, the snake does not move, nothing
    sleeps and the variables are left as they are. *)
Theorem loop_body_dead (X Y : Z) (rb : nat → nat) (key : option string)
    (g : Game) :
  in_bounds X Y (apple g) → is_dead (snake g) = Ok true →
  ∃ lines, plot X Y (snake g) (apple g) = ([Clear], Ok lines)
    ∧ loop_body X Y rb key g
      = ([Term Clear; Term (Print (join (String "010" "") lines))],
         Ok (Break g)).
Proof.
  intros Hap Hdead. destruct g as [[[|h t] d] a run sc]; [discriminate|].
  cbn [snake apple] in *.
  destruct (plot_ok X Y (mkSnake (h :: t) d) a Hap) as [lines Hplot].
  exists lines. split; [exact Hplot|].
  rewrite (loop_body_eq X Y rb key h t d a run sc lines Hplot).
  rewrite is_dead_cons in Hdead. injection Hdead as ->. reflexivity.
Qed.

Lemma loop_body_dead_witness :
  ∃ lines,
    plot 3 3 (mkSnake [mkPoint2D 1 1; mkPoint2D 1 2; mkPoint2D 1 1] UP)
         (mkPoint2D 0 0) = ([Clear], Ok lines)
    ∧ loop_body 3 3 (λ _, 0%nat) (Some "q")
        (mkGame (mkSnake [mkPoint2D 1 1; mkPoint2D 1 2; mkPoint2D 1 1] UP)
                (mkPoint2D 0 0) true 2)
      = ([Term Clear; Term (Print (join (String "010" "") lines))],
         Ok (Break
               (mkGame (mkSnake [mkPoint2D 1 1; mkPoint2D 1 2; mkPoint2D 1 1] UP)
                       (mkPoint2D 0 0) true 2))).
Proof.
  apply (loop_body_dead 3 3 (λ _, 0%nat) (Some "q")
           (mkGame (mkSnake [mkPoint2D 1 1; mkPoint2D 1 2; mkPoint2D 1 1] UP)
                   (mkPoint2D 0 0) true 2));
    [unfold in_bounds; simpl; lia | reflexivity].
Defined.

Lemma game_loop_stopped X Y inputs g :
  is_running g = false → game_loop X Y inputs g = ([], Ok (Some g)).
Proof. intros Hrun. destruct inputs; cbn [game_loop]; rewrite Hrun; reflexivity. Qed.

(** X25: the quit key ends the loop within the pass that reads it: the
    snake still makes that pass's move, and the keys and draws that would
    follow are never used. *)
Theorem quit_ends_loop (X Y : Z) (rb : nat → nat) (k : string)
    (rest : list (option string * (nat → nat))) (g : Game) :
  0 < X → 0 < Y → good_draw rb → game_ok X Y g →
  lower (strip k) = "q" →
  game_loop X Y ((Some k, rb) :: rest) g = game_loop X Y [(Some k, rb)] g
  ∧ (game_loop X Y [(Some k, rb)] g).2 ≠ Ok None.
Proof.
  intros HX HY Hrand Hok Hq. cbn [game_loop].
  destruct (is_running g) eqn:Hrun; [|split; [reflexivity | discriminate]].
  assert (Hstop : is_running (read_key (Some k) g) = false).
  { rewrite read_key_running. destruct k as [|c k]; [discriminate Hq|].
    cbn [truthy]. rewrite Hq. reflexivity. }
  destruct (loop_body_step X Y rb (Some k) g HX HY Hrand Hok)
    as (lines & _ & [(_ & ->)|[(_ & _ & ->)|[(_ & _ & g' & -> & _ & _ & Hr & _)
                                            |(_ & _ & g' & -> & _ & Hr & _)]]]).
  - split; [reflexivity | discriminate].
  - split; [reflexivity | discriminate].
  - rewrite Hstop in Hr. rewrite !io_bind_ok.
    rewrite (game_loop_stopped X Y rest g' Hr), Hr.
    split; [reflexivity | discriminate].
  - rewrite Hstop in Hr. rewrite !io_bind_ok.
    rewrite (game_loop_stopped X Y rest g' Hr), Hr.
    split; [reflexivity | discriminate].
Qed.

Lemma quit_ends_loop_witness :
  game_loop 3 3 [(Some "Q", λ _, 0%nat); (Some "w", λ _, 0%nat)]
    (mkGame (Snake_init 1 1 DOWN) (mkPoint2D 0 0) true 0)
  = game_loop 3 3 [(Some "Q", λ _, 0%nat)]
      (mkGame (Snake_init 1 1 DOWN) (mkPoint2D 0 0) true 0)
  ∧ (game_loop 3 3 [(Some "Q", λ _, 0%nat)]
       (mkGame (Snake_init 1 1 DOWN) (mkPoint2D 0 0) true 0)).2 ≠ Ok None.
Proof.
  apply (quit_ends_loop 3 3 (λ _, 0%nat) "Q" [(Some "w", λ _, 0%nat)]
           (mkGame (Snake_init 1 1 DOWN) (mkPoint2D 0 0) true 0));
    [lia | lia | intros n Hn; exact Hn | | reflexivity].
  split; [discriminate | unfold in_bounds; simpl; lia].
Defined.

(** The loop keeps [game_ok] and the difference between the score and the
    length of the body, and raises nothing but the win's exit. *)
Lemma game_loop_inv X Y inputs : ∀ g,
  0 < X → 0 < Y → Forall (λ i, good_draw i.2) inputs → game_ok X Y g →
  match (game_loop X Y inputs g).2 with
  | Ok (Some g') =>
      game_ok X Y g'
      ∧ score g' - Z.of_nat (length (coords (snake g')))
        = score g - Z.of_nat (length (coords (snake g)))
  | Ok None => True
  | Raise e => e = SystemExit 0
  end.
Proof.
  induction inputs as [|[key rb] rest IH]; intros g HX HY Hin Hok;
    cbn [game_loop]; destruct (is_running g); cbn [snd mret io_ret]; auto.
  apply Forall_cons in Hin as [Hrand Hin]. cbn [snd] in Hrand.
  rewrite io_bind_snd.
  destruct (loop_body_step X Y rb key g HX HY Hrand Hok)
    as (lines & _ & [(_ & ->)|[(_ & _ & ->)|[(_ & _ & g' & -> & Hok' & H)
                                            |(_ & _ & g' & -> & Hok' & H)]]]);
    cbn [snd mret io_ret]; auto.
  - destruct H as (_ & _ & _ & Hs & Hl).
    specialize (IH g' HX HY Hin Hok').
    destruct ((game_loop X Y rest g').2) as [[g''|]|e]; auto.
    destruct IH as [Hok'' Hd]. split; [exact Hok''|]. lia.
  - destruct H as (_ & _ & Hs & Hl).
    specialize (IH g' HX HY Hin Hok').
    destruct ((game_loop X Y rest g').2) as [[g''|]|e]; auto.
    destruct IH as [Hok'' Hd]. split; [exact Hok''|]. lia.
Qed.

(** X26: every run of [main]'s loop, on any keys and any draws, ends by
    death or quit with a score equal to the length of the body minus one,
    a body that is not empty and the apple on the board, or with the win's
    exit with status 0; no other exception escapes. *)
Theorem main_loop_invariant (rb : nat → nat)
    (inputs : list (option string * (nat → nat))) :
  good_draw rb → Forall (λ i, good_draw i.2) inputs →
  match (main_loop rb inputs).2 with
  | Ok (Some g) =>
      game_ok 30 20 g
      ∧ score g = Z.of_nat (length (coords (snake g))) - 1
  | Ok None => True
  | Raise e => e = SystemExit 0
  end.
Proof.
  intros Hrand Hin. unfold main_loop, main_init. cbn zeta.
  change (30 `div` 2) with 15. change (20 `div` 2) with 10.
  assert (Hplace : ∃ p, new_apple_location rb 30 20 (Snake_init 15 10 DOWN)
                        = ([], Ok p)
                        ∧ in_bounds 30 20 p ∧ p ∉ coords (Snake_init 15 10 DOWN)).
  { apply placement_when_short; [lia | lia | simpl; lia | exact Hrand]. }
  destruct Hplace as (p & Hp & Hb & _).
  rewrite Hp. unfold term. cbn [fst snd fmap list_fmap].
  rewrite !io_bind_ok. cbn [fst snd mret io_ret app].
  set (g0 := mkGame (Snake_init 15 10 DOWN) p true 0).
  assert (Hok : game_ok 30 20 g0) by (split; [discriminate | exact Hb]).
  assert (H30 : 0 < 30) by lia. assert (H20 : 0 < 20) by lia.
  pose proof (game_loop_inv 30 20 inputs g0 H30 H20 Hin Hok) as H.
  rewrite io_bind_snd. cbn [snd]. revert H.
  destruct ((game_loop 30 20 inputs g0).2) as [[g'|]|e]; auto.
  intros [Hok' Hd]. split; [exact Hok'|].
  cbn [g0 score snake coords Snake_init length] in Hd. lia.
Qed.

Lemma main_loop_invariant_witness :
  match (main_loop (λ _, 0%nat) [(Some "q", λ _, 0%nat)]).2 with
  | Ok (Some g) =>
      game_ok 30 20 g
      ∧ score g = Z.of_nat (length (coords (snake g))) - 1
  | Ok None => True
  | Raise e => e = SystemExit 0
  end.
Proof.
  apply (main_loop_invariant (λ _, 0%nat) [(Some "q", λ _, 0%nat)]).
  - intros n Hn. exact Hn.
  - repeat constructor. intros n Hn. exact Hn.
Defined.

Example main_loop_quit :
  (main_loop (λ _, 0%nat) [(Some "q", λ _, 0%nat)]).2
  = Ok (Some (mkGame (mkSnake [mkPoint2D 15 11] DOWN) (mkPoint2D 0 0) false 0)).
Proof. vm_compute. reflexivity. Qed.

(** X27: in the pass where the snake eats, [grow] and then [update] put two
    new cells in front of the body while the tail cell is still dropped:
    the head advances by two cells and the body is one longer. *)
Theorem eating_tick_moves_two (s : Snake) (x_bounds y_bounds : Z) :
  coords s ≠ [] → x_bounds ≠ 0 → y_bounds ≠ 0 →
  ∃ h t s1 s2, coords s = h :: t
    ∧ grow s = Ok s1 ∧ update s1 x_bounds y_bounds = Ok s2
    ∧ coords s2
      = Point2D_add
          (wrapped x_bounds y_bounds (Point2D_add h (value (direction s))))
          (value (direction s))
        :: wrapped x_bounds y_bounds (Point2D_add h (value (direction s)))
        :: removelast (wrapped x_bounds y_bounds <$> coords s).
Proof.
  intros Hne Hx Hy. destruct s as [[|h t] d]; [done|].
  eexists h, t, _, _. split; [reflexivity|].
  split; [apply grow_cons|]. split; [apply update_cons; assumption|].
  reflexivity.
Qed.

Lemma eating_tick_moves_two_witness :
  ∃ h t s1 s2, coords (Snake_init 1 1 DOWN) = h :: t
    ∧ grow (Snake_init 1 1 DOWN) = Ok s1 ∧ update s1 3 3 = Ok s2
    ∧ coords s2
      = Point2D_add (wrapped 3 3 (Point2D_add h (value DOWN))) (value DOWN)
        :: wrapped 3 3 (Point2D_add h (value DOWN))
        :: removelast (wrapped 3 3 <$> coords (Snake_init 1 1 DOWN)).
Proof.
  apply (eating_tick_moves_two (Snake_init 1 1 DOWN) 3 3);
    [discriminate | lia | lia].
Defined.
